(** * Feature scalers of mlpack: MeanNormalization and MinMaxScaler

    A shallow embedding of
      src/mlpack/core/data/scaler_methods/meannormalization.hpp
      src/mlpack/core/data/scaler_methods/minmaxscaler.hpp
    and the properties of their [Transform] / [InverseTransform] members.

    Numbers.  The classes compute on [double].  They are embedded twice,
    statement by statement the same.  In the first embedding rounding is
    abstracted away: a finite number is an exact rational.  What is kept of
    IEEE 754 are the values a division by zero produces, because
    [MinMaxScaler::Transform] divides by [itemMax - itemMin] before it looks
    for zeroes: [x / 0] is an infinity (or NaN for [0 / 0]), an infinity is
    not [== 0], and every comparison with NaN is false.  This embedding
    carries the statements about the formulas, the special values, the sizes
    and the fields.  In the second embedding, [B64], a number is a binary64
    double, with the rounding, the overflow and the signed zeros of
    IEEE 754.  The properties that depend on the arithmetic (round trip,
    range, centering) are stated on [B64]: they are refuted where an
    operation rounds or overflows, and proved for the runs in which none
    does, by showing that such a run denotes the run on the exact numbers.

    Effects.  Both members are [void] methods that assign the fields of
    [*this] and write into the caller's [output] matrix.  They are written
    here in a state monad over the pair (fields, output); a failed bounds
    check of an element access ends the run with [Throw] and leaves the
    state as it was at that point. *)

From Stdlib Require Import QArith Lqa Lia List Bool.
From stdpp Require Import list.
From Stdlib Require Floats.PrimFloat Floats.FloatOps Floats.SpecFloat.
From Stdlib Require Numbers.Cyclic.Int63.Uint63.
Import ListNotations.

Local Open Scope Q_scope.

(** ** Numbers: exact rationals with the IEEE special values *)

Module Num.

Inductive num : Type :=
| Fin (q : Q)
| PInf
| NInf
| NaN.

(** The infinity a non-zero finite operand selects by its sign; a zero
  operand gives NaN ([0 * inf], [0 / 0]). *)
Definition inf_of_sign (c : comparison) : num :=
match c with
| Gt => PInf
| Lt => NInf
| Eq => NaN
end.

Definition nopp (a : num) : num :=
match a with
| Fin x => Fin (- x)
| PInf => NInf
| NInf => PInf
| NaN => NaN
end.

Definition nadd (a b : num) : num :=
match a, b with
| NaN, _ | _, NaN => NaN
| Fin x, Fin y => Fin (x + y)
| PInf, NInf | NInf, PInf => NaN
| PInf, _ | _, PInf => PInf
| NInf, _ | _, NInf => NInf
end.

Definition nsub (a b : num) : num := nadd a (nopp b).

Definition nmul (a b : num) : num :=
match a, b with
| NaN, _ | _, NaN => NaN
| Fin x, Fin y => Fin (x * y)
| Fin x, PInf | PInf, Fin x => inf_of_sign (x ?= 0)
| Fin x, NInf | NInf, Fin x => inf_of_sign (0 ?= x)
| PInf, PInf | NInf, NInf => PInf
| PInf, NInf | NInf, PInf => NInf
end.

(** Division.  The model has one zero; as a divisor it stands for [+0],
  which is the zero [x - x] evaluates to. *)
Definition ndiv (a b : num) : num :=
match a, b with
| NaN, _ | _, NaN => NaN
| Fin x, Fin y => if Qeq_bool y 0 then inf_of_sign (x ?= 0) else Fin (x / y)
| Fin _, (PInf | NInf) => Fin 0
| PInf, Fin y => match y ?= 0 with Lt => NInf | _ => PInf end
| NInf, Fin y => match y ?= 0 with Lt => PInf | _ => NInf end
| (PInf | NInf), (PInf | NInf) => NaN
end.

(** [a == b] on doubles: numeric equality, false as soon as a NaN is
  involved. *)
Definition neqb (a b : num) : bool :=
match a, b with
| Fin x, Fin y => Qeq_bool x y
| PInf, PInf | NInf, NInf => true
| _, _ => false
end.

(** [a < b] on doubles. *)
Definition nltb (a b : num) : bool :=
match a, b with
| NaN, _ | _, NaN => false
| Fin x, Fin y => match x ?= y with Lt => true | _ => false end
| NInf, (Fin _ | PInf) => true
| Fin _, PInf => true
| _, _ => false
end.


Definition of_nat (n : nat) : num := Fin (inject_Z (Z.of_nat n)).

Definition is_fin (a : num) : bool :=
match a with
| Fin _ => true
| _ => false
end.

(** The rational behind a finite number (0 for the special values; only
  used under [is_fin]). *)
Definition to_Q (a : num) : Q :=
match a with
| Fin q => q
| _ => 0
end.

End Num.
Import Num.

(** ** Armadillo containers

    [arma::colvec] is a list of numbers; [arma::Mat] is its two sizes and
    its elements as seen through [(i, j)].  Element access is bounds
    checked, as Armadillo does unless it was built with [ARMA_NO_DEBUG]. *)

Abbreviation colvec := (list num).

Record Mat : Type := mkMat {
  n_rows : nat;
  n_cols : nat;
  elem : nat -> nat -> num
}.

Definition in_bounds (m : Mat) (i j : nat) : bool :=
  (i <? n_rows m)%nat && (j <? n_cols m)%nat.

(** Modelled from the spec: [m.copy_size(x)] of Armadillo, the
    size-matching allocation of the matrix abstraction.  [m] takes the sizes
    of [x]; what its elements hold afterwards is unspecified (here: whatever
    [m] held). *)
Definition mat_copy_size (m x : Mat) : Mat :=
  {| n_rows := n_rows x; n_cols := n_cols x; elem := elem m |}.

(** [m(i, j) = v] on an in-bounds position. *)
Definition mat_update (m : Mat) (i j : nat) (v : num) : Mat :=
  {| n_rows := n_rows m;
     n_cols := n_cols m;
     elem := fun i' j' =>
       if (i' =? i)%nat && (j' =? j)%nat then v else elem m i' j' |}.

(** Row [i] of a matrix, as the list of its [n_cols] elements. *)
Definition row (m : Mat) (i : nat) : list num :=
  map (elem m i) (seq 0 (n_cols m)).

(** A matrix from its rows (used to write down concrete inputs). *)
Definition mat_of_rows (cols : nat) (rows : list (list num)) : Mat :=
  {| n_rows := length rows;
     n_cols := cols;
     elem := fun i j => nth j (nth i rows []) NaN |}.

(** Modelled from the spec: [arma::min(X, 1)], the header of Armadillo is
    not part of the sources.  The spec asks of the matrix abstraction a
    row-wise min reduction; as in the library the scan of a row starts from
    its first element and replaces the candidate when [v < candidate], and
    a matrix without columns reduces to an empty vector. *)
Definition row_min (m : Mat) (i : nat) : num :=
  fold_left (fun cur j => if nltb (elem m i j) cur then elem m i j else cur)
            (seq 1 (n_cols m - 1)) (elem m i 0%nat).

Definition arma_min (m : Mat) : colvec :=
  if (n_cols m =? 0)%nat then [] else map (row_min m) (seq 0 (n_rows m)).

(** Modelled from the spec: [arma::max(X, 1)], the row-wise max reduction,
    scanning with [v > candidate]. *)
Definition row_max (m : Mat) (i : nat) : num :=
  fold_left (fun cur j => if nltb cur (elem m i j) then elem m i j else cur)
            (seq 1 (n_cols m - 1)) (elem m i 0%nat).

Definition arma_max (m : Mat) : colvec :=
  if (n_cols m =? 0)%nat then [] else map (row_max m) (seq 0 (n_rows m)).

(** Modelled from the spec: [arma::mean(X, 1)], the row-wise mean
    reduction: the sum of the row, accumulated from zero, over the number
    of columns. *)
Definition row_sum (m : Mat) (i : nat) : num :=
  fold_left (fun acc j => nadd acc (elem m i j)) (seq 0 (n_cols m)) (Fin 0).

Definition row_mean (m : Mat) (i : nat) : num :=
  ndiv (row_sum m i) (of_nat (n_cols m)).

Definition arma_mean (m : Mat) : colvec :=
  if (n_cols m =? 0)%nat then [] else map (row_mean m) (seq 0 (n_rows m)).

(** Armadillo's element-wise [a - b] on vectors of one size and [s / a] of
    a scalar by a vector. *)
Definition vec_sub (a b : colvec) : colvec := zip_with nsub a b.

Definition scalar_div_vec (s : num) (a : colvec) : colvec := map (ndiv s) a.

(** ** The monad of a member function

    A member function runs on the fields of its object ([S]) and on the
    matrix bound to its [output] parameter. *)

Inductive outcome (A : Type) : Type :=
| Ok (a : A)
| Throw.
Arguments Ok {A} a.
Arguments Throw {A}.

Section Monad.
Context {S : Type}.

Definition world : Type := (S * Mat)%type.

Definition M (A : Type) : Type := world -> outcome A * world.

Definition ret {A} (a : A) : M A := fun w => (Ok a, w).

Definition bind {A B} (m : M A) (k : A -> M B) : M B :=
  fun w =>
    match m w with
    | (Ok a, w') => k a w'
    | (Throw, w') => (Throw, w')
    end.

(** Read a field of the object. *)
Definition gets {A} (f : S -> A) : M A := fun w => (Ok (f (fst w)), w).

(** Assign the fields of the object. *)
Definition modify (f : S -> S) : M unit := fun w => (Ok tt, (f (fst w), snd w)).

(** [v(i)] on a vector field. *)
Definition vec_at (f : S -> colvec) (i : nat) : M num :=
  fun w =>
    match f (fst w) !! i with
    | Some v => (Ok v, w)
    | None => (Throw, w)
    end.

(** [v(i) = x] on a vector field. *)
Definition vec_put (f : S -> colvec) (set : colvec -> S -> S) (i : nat) (x : num)
  : M unit :=
  fun w =>
    if (i <? length (f (fst w)))%nat
    then (Ok tt, (set (<[i := x]> (f (fst w))) (fst w), snd w))
    else (Throw, w).

(** [input(i, j)] on a matrix passed by const reference. *)
Definition mat_at (m : Mat) (i j : nat) : M num :=
  fun w => if in_bounds m i j then (Ok (elem m i j), w) else (Throw, w).

(** [output.copy_size(input)]. *)
Definition output_copy_size (input : Mat) : M unit :=
  fun w => (Ok tt, (fst w, mat_copy_size (snd w) input)).

(** [output(i, j)] as an rvalue. *)
Definition output_at (i j : nat) : M num :=
  fun w => if in_bounds (snd w) i j then (Ok (elem (snd w) i j), w) else (Throw, w).

(** [output(i, j) = v]. *)
Definition output_put (i j : nat) (v : num) : M unit :=
  fun w =>
    if in_bounds (snd w) i j
    then (Ok tt, (fst w, mat_update (snd w) i j v))
    else (Throw, w).

(** [for (size_t i = from; i < from + n; i++) body(i)]. *)
Fixpoint for_from (from n : nat) (body : nat -> M unit) : M unit :=
  match n with
  | O => ret tt
  | Datatypes.S n' => bind (body from) (fun _ => for_from (Datatypes.S from) n' body)
  end.

Definition for_ (n : nat) (body : nat -> M unit) : M unit := for_from 0 n body.

End Monad.

Arguments world : clear implicits.
Arguments M : clear implicits.

Declare Scope monad_scope.
Delimit Scope monad_scope with monad.
Notation "'let*' x ':=' c1 'in' c2" := (bind c1 (fun x => c2))
  (at level 10, x name, c1 at level 100, c2 at level 200) : monad_scope.
Notation "c1 ;; c2" := (bind c1 (fun _ => c2))
  (at level 100, c2 at level 200, right associativity) : monad_scope.
Local Open Scope monad_scope.

(** What is left after a call: whether it completed, the fields of the
    object and the caller's output matrix. *)
Definition completed {S A} (r : outcome A * world S) : bool :=
  match fst r with
  | Ok _ => true
  | Throw => false
  end.

Definition fields_after {S A} (r : outcome A * world S) : S := fst (snd r).

Definition output_after {S A} (r : outcome A * world S) : Mat := snd (snd r).

(** [==] on vectors and matrices: same sizes and numerically equal
    elements. *)
Fixpoint vec_eqb (a b : list num) : bool :=
  match a, b with
  | [], [] => true
  | x :: a', y :: b' => neqb x y && vec_eqb a' b'
  | _, _ => false
  end.


(** ** class MeanNormalization *)

Module MeanNormalization.

(** The private members. *)
Record t : Type := mk {
  itemMean : colvec;
  itemMin : colvec;
  itemMax : colvec;
  scale : colvec
}.

(** A default-constructed object: every vector is empty. *)
Definition init : t := mk [] [] [] [].

Definition set_itemMean (v : colvec) (s : t) : t :=
  mk v (itemMin s) (itemMax s) (scale s).
Definition set_itemMin (v : colvec) (s : t) : t :=
  mk (itemMean s) v (itemMax s) (scale s).
Definition set_itemMax (v : colvec) (s : t) : t :=
  mk (itemMean s) (itemMin s) v (scale s).
Definition set_scale (v : colvec) (s : t) : t :=
  mk (itemMean s) (itemMin s) (itemMax s) v.

Definition Transform (input : Mat) : M t unit :=
  output_copy_size input ;;
  modify (set_itemMean (arma_mean input)) ;;
  modify (set_itemMin (arma_min input)) ;;
  modify (set_itemMax (arma_max input)) ;;
  modify (fun s => set_scale (vec_sub (itemMax s) (itemMin s)) s) ;;
  let* n := gets (fun s => length (scale s)) in
  for_ n (fun i =>
    let* v := vec_at scale i in
    if neqb v (Fin 0) then vec_put scale set_scale i (Fin 1) else ret tt) ;;
  for_ (n_rows input) (fun i =>
    for_ (n_cols input) (fun j =>
      let* x := mat_at input i j in
      let* m := vec_at itemMean i in
      output_put i j (nsub x m) ;;
      let* o := output_at i j in
      let* s := vec_at scale i in
      output_put i j (ndiv o s))).

Definition InverseTransform (input : Mat) : M t unit :=
  output_copy_size input ;;
  for_ (n_rows input) (fun i =>
    for_ (n_cols input) (fun j =>
      let* x := mat_at input i j in
      let* s := vec_at scale i in
      output_put i j (nmul x s) ;;
      let* o := output_at i j in
      let* m := vec_at itemMean i in
      output_put i j (nadd o m))).

(** The accessors. *)
Definition ItemMean (s : t) : colvec := itemMean s.
Definition ItemMin (s : t) : colvec := itemMin s.
Definition ItemMax (s : t) : colvec := itemMax s.
Definition Scale (s : t) : colvec := scale s.

End MeanNormalization.

(** ** class MinMaxScaler *)

Module MinMaxScaler.

Record t : Type := mk {
  itemMin : colvec;
  itemMax : colvec;
  scale : colvec;
  scalemin : num;
  scalemax : num
}.

(** [MinMaxScaler(const double min = 0, const double max = 1)]. *)
Definition new (min max : num) : t := mk [] [] [] min max.
Definition default : t := new (Fin 0) (Fin 1).

Definition set_itemMin (v : colvec) (s : t) : t :=
  mk v (itemMax s) (scale s) (scalemin s) (scalemax s).
Definition set_itemMax (v : colvec) (s : t) : t :=
  mk (itemMin s) v (scale s) (scalemin s) (scalemax s).
Definition set_scale (v : colvec) (s : t) : t :=
  mk (itemMin s) (itemMax s) v (scalemin s) (scalemax s).

Definition Transform (input : Mat) : M t unit :=
  output_copy_size input ;;
  modify (set_itemMin (arma_min input)) ;;
  modify (set_itemMax (arma_max input)) ;;
  modify (fun s =>
    set_scale (scalar_div_vec (nsub (scalemax s) (scalemin s))
                              (vec_sub (itemMax s) (itemMin s))) s) ;;
  let* n := gets (fun s => length (scale s)) in
  for_ n (fun i =>
    let* v := vec_at scale i in
    if neqb v (Fin 0) then vec_put scale set_scale i (Fin 1) else ret tt) ;;
  for_ (n_rows input) (fun i =>
    for_ (n_cols input) (fun j =>
      let* s := vec_at scale i in
      let* x := mat_at input i j in
      let* lo := gets scalemin in
      let* mn := vec_at itemMin i in
      let* s' := vec_at scale i in
      output_put i j (nsub (nadd (nmul s x) lo) (nmul mn s')))).

Definition InverseTransform (input : Mat) : M t unit :=
  output_copy_size input ;;
  for_ (n_rows input) (fun i =>
    for_ (n_cols input) (fun j =>
      let* x := mat_at input i j in
      let* lo := gets scalemin in
      let* mn := vec_at itemMin i in
      let* s := vec_at scale i in
      let* s' := vec_at scale i in
      output_put i j (ndiv (nadd (nsub x lo) (nmul mn s)) s'))).

Definition ItemMin (s : t) : colvec := itemMin s.
Definition ItemMax (s : t) : colvec := itemMax s.
Definition Scale (s : t) : colvec := scale s.
Definition ScaleMax (s : t) : num := scalemax s.
Definition ScaleMin (s : t) : num := scalemin s.

End MinMaxScaler.

(** ** Vocabulary of the statements *)

(** [wp m Q w]: from [w] the computation [m] completes (no bounds check
    fails) and its result and final state satisfy [Q]. *)
Definition wp {S A} (m : M S A) (Q : A -> world S -> Prop) (w : world S) : Prop :=
  exists a w', m w = (Ok a, w') /\ Q a w'.

(** [keeps P m]: [P] on the state survives [m], whether [m] completes
    or throws. *)
Definition keeps {S A} (P : world S -> Prop) (m : M S A) : Prop :=
  forall w, P w -> P (snd (m w)).

(** What the loop after the comment "Handline Zeroes in scale vector" makes
    of one entry. *)
Definition nonzero_or_one (v : num) : num :=
  if neqb v (Fin 0) then Fin 1 else v.

Definition same_size (a b : Mat) : Prop :=
  n_rows a = n_rows b /\ n_cols a = n_cols b.

(** The body of the loop under the comment "Handline Zeroes in scale
    vector", on the vector field read by [f] and assigned by [set]. *)
Definition zero_loop_body {S} (f : S -> colvec) (set : colvec -> S -> S) (i : nat)
  : M S unit :=
  let* v := vec_at f i in
  if neqb v (Fin 0) then vec_put f set i (Fin 1) else ret tt.

(** One run of the body of an element-wise loop: it writes [F i j] at
    [(i, j)] and leaves the fields, the sizes and the other elements. *)
Definition writes_cell {S} (F : nat -> nat -> num) (st : S) (out : Mat) (i j : nat)
  : unit -> world S -> Prop :=
  fun _ w' =>
    fst w' = st /\ same_size (snd w') out /\
    elem (snd w') i j = F i j /\
    forall i' j', (i' <> i \/ j' <> j) -> elem (snd w') i' j' = elem out i' j'.

Module MeanNormalizationFit.
Import MeanNormalization.

(** The fields a call of [Transform input] leaves behind. *)
Definition fitted (input : Mat) : t :=
  {| itemMean := arma_mean input;
     itemMin := arma_min input;
     itemMax := arma_max input;
     scale := map nonzero_or_one (vec_sub (arma_max input) (arma_min input)) |}.

(** The scale entry of feature [i]. *)
Definition scale_of (input : Mat) (i : nat) : num :=
  nonzero_or_one (nsub (row_max input i) (row_min input i)).

End MeanNormalizationFit.

Module MinMaxScalerFit.
Import MinMaxScaler.

(** The scale entry of feature [i] for the range [lo, hi]. *)
Definition scale_of (lo hi : num) (input : Mat) (i : nat) : num :=
  nonzero_or_one (ndiv (nsub hi lo) (nsub (row_max input i) (row_min input i))).

(** The fields a call of [Transform input] leaves behind. *)
Definition fitted (st : t) (input : Mat) : t :=
  {| itemMin := arma_min input;
     itemMax := arma_max input;
     scale := map nonzero_or_one
                  (scalar_div_vec (nsub (scalemax st) (scalemin st))
                                  (vec_sub (arma_max input) (arma_min input)));
     scalemin := scalemin st;
     scalemax := scalemax st |}.

End MinMaxScalerFit.

(** Over exact arithmetic a data matrix holds finite numbers only.  The
    predicates are boolean so that they can be evaluated on a concrete
    matrix. *)
Definition finite_row (m : Mat) (i : nat) : bool :=
  forallb (fun j => is_fin (elem m i j)) (seq 0 (n_cols m)).



(** All entries of row [i] are equal. *)
Definition constant_row (m : Mat) (i : nat) : bool :=
  forallb (fun j => neqb (elem m i j) (elem m i 0%nat)) (seq 0 (n_cols m)).


(** One step of the scan of [arma::min], of [arma::max], over the row
    [g]. *)
Definition min_step (g : nat -> num) (cur : num) (j : nat) : num :=
  if nltb (g j) cur then g j else cur.

Definition max_step (g : nat -> num) (cur : num) (j : nat) : num :=
  if nltb cur (g j) then g j else cur.

(** The sum of [x] over the indices [js], from [acc]. *)
Definition qsum (x : nat -> Q) (js : list nat) (acc : Q) : Q :=
  fold_left (fun a j => a + x j) js acc.

(** Concrete inputs. *)
Definition row_2_4_6 : Mat := mat_of_rows 3 [[Fin 2; Fin 4; Fin 6]].
Definition row_5_5_5 : Mat := mat_of_rows 3 [[Fin 5; Fin 5; Fin 5]].
Definition no_output : Mat := mkMat 0 0 (fun _ _ => NaN).

(** The value [v(i)] reads when [i] is in bounds (NaN stands in for the
    read that fails). *)
Definition entry (v : colvec) (i : nat) : num :=
  match v !! i with
  | Some x => x
  | None => NaN
  end.

(** ** The same code on binary64 doubles

    The classes once more, statement by statement as above, with the
    element type the source has: [double], here the kernel's binary64
    floats, whose [+ - * /], [==] and [<] round, overflow and compare as
    IEEE 754 prescribes. *)

Module B64.
Import PrimFloat.
Local Open Scope float_scope.

Abbreviation colvec := (list float).

Record Mat : Type := mkMat {
  n_rows : nat;
  n_cols : nat;
  elem : nat -> nat -> float
}.

Definition in_bounds (m : Mat) (i j : nat) : bool :=
  (i <? n_rows m)%nat && (j <? n_cols m)%nat.

(** Modelled from the spec: [m.copy_size(x)] of Armadillo. *)
Definition mat_copy_size (m x : Mat) : Mat :=
  {| n_rows := n_rows x; n_cols := n_cols x; elem := elem m |}.

Definition mat_update (m : Mat) (i j : nat) (v : float) : Mat :=
  {| n_rows := n_rows m;
     n_cols := n_cols m;
     elem := fun i' j' =>
       if (i' =? i)%nat && (j' =? j)%nat then v else elem m i' j' |}.

Definition row (m : Mat) (i : nat) : list float :=
  map (elem m i) (seq 0 (n_cols m)).

Definition mat_of_rows (cols : nat) (rows : list (list float)) : Mat :=
  {| n_rows := length rows;
     n_cols := cols;
     elem := fun i j => nth j (nth i rows []) nan |}.

(** [T(n)] for a [size_t] [n]. *)
Definition of_nat (n : nat) : float := of_uint63 (Uint63.of_Z (Z.of_nat n)).

(** Modelled from the spec: [arma::min(X, 1)], as for the exact numbers. *)
Definition row_min (m : Mat) (i : nat) : float :=
  fold_left (fun cur j => if elem m i j <? cur then elem m i j else cur)
            (seq 1 (n_cols m - 1)) (elem m i 0%nat).

Definition arma_min (m : Mat) : colvec :=
  if (n_cols m =? 0)%nat then [] else map (row_min m) (seq 0 (n_rows m)).

(** Modelled from the spec: [arma::max(X, 1)]. *)
Definition row_max (m : Mat) (i : nat) : float :=
  fold_left (fun cur j => if cur <? elem m i j then elem m i j else cur)
            (seq 1 (n_cols m - 1)) (elem m i 0%nat).

Definition arma_max (m : Mat) : colvec :=
  if (n_cols m =? 0)%nat then [] else map (row_max m) (seq 0 (n_rows m)).

(** Modelled from the spec: [arma::mean(X, 1)]: the sum of the row,
    accumulated from zero in column order, over the number of columns. *)
Definition row_sum (m : Mat) (i : nat) : float :=
  fold_left (fun acc j => acc + elem m i j) (seq 0 (n_cols m)) 0.

Definition row_mean (m : Mat) (i : nat) : float :=
  row_sum m i / of_nat (n_cols m).

Definition arma_mean (m : Mat) : colvec :=
  if (n_cols m =? 0)%nat then [] else map (row_mean m) (seq 0 (n_rows m)).

Definition vec_sub (a b : colvec) : colvec := zip_with sub a b.

Definition scalar_div_vec (s : float) (a : colvec) : colvec := map (div s) a.

Section Monad.
Context {S : Type}.

Definition world : Type := (S * Mat)%type.

Definition M (A : Type) : Type := world -> outcome A * world.

Definition ret {A} (a : A) : M A := fun w => (Ok a, w).

Definition bind {A B} (m : M A) (k : A -> M B) : M B :=
  fun w =>
    match m w with
    | (Ok a, w') => k a w'
    | (Throw, w') => (Throw, w')
    end.

Definition gets {A} (f : S -> A) : M A := fun w => (Ok (f (fst w)), w).

Definition modify (f : S -> S) : M unit := fun w => (Ok tt, (f (fst w), snd w)).

Definition vec_at (f : S -> colvec) (i : nat) : M float :=
  fun w =>
    match f (fst w) !! i with
    | Some v => (Ok v, w)
    | None => (Throw, w)
    end.

Definition vec_put (f : S -> colvec) (set : colvec -> S -> S) (i : nat) (x : float)
  : M unit :=
  fun w =>
    if (i <? length (f (fst w)))%nat
    then (Ok tt, (set (<[i := x]> (f (fst w))) (fst w), snd w))
    else (Throw, w).

Definition mat_at (m : Mat) (i j : nat) : M float :=
  fun w => if in_bounds m i j then (Ok (elem m i j), w) else (Throw, w).

Definition output_copy_size (input : Mat) : M unit :=
  fun w => (Ok tt, (fst w, mat_copy_size (snd w) input)).

Definition output_at (i j : nat) : M float :=
  fun w => if in_bounds (snd w) i j then (Ok (elem (snd w) i j), w) else (Throw, w).

Definition output_put (i j : nat) (v : float) : M unit :=
  fun w =>
    if in_bounds (snd w) i j
    then (Ok tt, (fst w, mat_update (snd w) i j v))
    else (Throw, w).

Fixpoint for_from (from n : nat) (body : nat -> M unit) : M unit :=
  match n with
  | O => ret tt
  | Datatypes.S n' => bind (body from) (fun _ => for_from (Datatypes.S from) n' body)
  end.

Definition for_ (n : nat) (body : nat -> M unit) : M unit := for_from 0 n body.

End Monad.

Arguments world : clear implicits.
Arguments M : clear implicits.

Declare Scope b64_monad_scope.
Notation "'let*' x ':=' c1 'in' c2" := (bind c1 (fun x => c2))
  (at level 10, x name, c1 at level 100, c2 at level 200) : b64_monad_scope.
Notation "c1 ;; c2" := (bind c1 (fun _ => c2))
  (at level 100, c2 at level 200, right associativity) : b64_monad_scope.
Local Open Scope b64_monad_scope.

Definition completed {S A} (r : outcome A * world S) : bool :=
  match fst r with
  | Ok _ => true
  | Throw => false
  end.

Definition fields_after {S A} (r : outcome A * world S) : S := fst (snd r).

Definition output_after {S A} (r : outcome A * world S) : Mat := snd (snd r).

Module MeanNormalization.

Record t : Type := mk {
  itemMean : colvec;
  itemMin : colvec;
  itemMax : colvec;
  scale : colvec
}.

Definition init : t := mk [] [] [] [].

Definition set_itemMean (v : colvec) (s : t) : t :=
  mk v (itemMin s) (itemMax s) (scale s).
Definition set_itemMin (v : colvec) (s : t) : t :=
  mk (itemMean s) v (itemMax s) (scale s).
Definition set_itemMax (v : colvec) (s : t) : t :=
  mk (itemMean s) (itemMin s) v (scale s).
Definition set_scale (v : colvec) (s : t) : t :=
  mk (itemMean s) (itemMin s) (itemMax s) v.

Definition Transform (input : Mat) : M t unit :=
  output_copy_size input ;;
  modify (set_itemMean (arma_mean input)) ;;
  modify (set_itemMin (arma_min input)) ;;
  modify (set_itemMax (arma_max input)) ;;
  modify (fun s => set_scale (vec_sub (itemMax s) (itemMin s)) s) ;;
  let* n := gets (fun s => length (scale s)) in
  for_ n (fun i =>
    let* v := vec_at scale i in
    if v =? 0 then vec_put scale set_scale i 1 else ret tt) ;;
  for_ (n_rows input) (fun i =>
    for_ (n_cols input) (fun j =>
      let* x := mat_at input i j in
      let* m := vec_at itemMean i in
      output_put i j (x - m) ;;
      let* o := output_at i j in
      let* s := vec_at scale i in
      output_put i j (o / s))).

Definition InverseTransform (input : Mat) : M t unit :=
  output_copy_size input ;;
  for_ (n_rows input) (fun i =>
    for_ (n_cols input) (fun j =>
      let* x := mat_at input i j in
      let* s := vec_at scale i in
      output_put i j (x * s) ;;
      let* o := output_at i j in
      let* m := vec_at itemMean i in
      output_put i j (o + m))).

Definition ItemMean (s : t) : colvec := itemMean s.
Definition ItemMin (s : t) : colvec := itemMin s.
Definition ItemMax (s : t) : colvec := itemMax s.
Definition Scale (s : t) : colvec := scale s.

End MeanNormalization.

Module MinMaxScaler.

Record t : Type := mk {
  itemMin : colvec;
  itemMax : colvec;
  scale : colvec;
  scalemin : float;
  scalemax : float
}.

Definition new (min max : float) : t := mk [] [] [] min max.
Definition default : t := new 0 1.

Definition set_itemMin (v : colvec) (s : t) : t :=
  mk v (itemMax s) (scale s) (scalemin s) (scalemax s).
Definition set_itemMax (v : colvec) (s : t) : t :=
  mk (itemMin s) v (scale s) (scalemin s) (scalemax s).
Definition set_scale (v : colvec) (s : t) : t :=
  mk (itemMin s) (itemMax s) v (scalemin s) (scalemax s).

Definition Transform (input : Mat) : M t unit :=
  output_copy_size input ;;
  modify (set_itemMin (arma_min input)) ;;
  modify (set_itemMax (arma_max input)) ;;
  modify (fun s =>
    set_scale (scalar_div_vec (scalemax s - scalemin s)
                              (vec_sub (itemMax s) (itemMin s))) s) ;;
  let* n := gets (fun s => length (scale s)) in
  for_ n (fun i =>
    let* v := vec_at scale i in
    if v =? 0 then vec_put scale set_scale i 1 else ret tt) ;;
  for_ (n_rows input) (fun i =>
    for_ (n_cols input) (fun j =>
      let* s := vec_at scale i in
      let* x := mat_at input i j in
      let* lo := gets scalemin in
      let* mn := vec_at itemMin i in
      let* s' := vec_at scale i in
      output_put i j (s * x + lo - mn * s'))).

Definition InverseTransform (input : Mat) : M t unit :=
  output_copy_size input ;;
  for_ (n_rows input) (fun i =>
    for_ (n_cols input) (fun j =>
      let* x := mat_at input i j in
      let* lo := gets scalemin in
      let* mn := vec_at itemMin i in
      let* s := vec_at scale i in
      let* s' := vec_at scale i in
      output_put i j ((x - lo + mn * s) / s'))).

Definition ItemMin (s : t) : colvec := itemMin s.
Definition ItemMax (s : t) : colvec := itemMax s.
Definition Scale (s : t) : colvec := scale s.
Definition ScaleMax (s : t) : float := scalemax s.
Definition ScaleMin (s : t) : float := scalemin s.

End MinMaxScaler.

(** The literals [0] and [1] of the source. *)
Definition zero_lit : float := 0.

(** What the zero-handling loop makes of one entry. *)
Definition nonzero_or_one (v : float) : float := if v =? 0 then 1 else v.

Definition same_size (a b : Mat) : Prop :=
  n_rows a = n_rows b /\ n_cols a = n_cols b.









Definition zero_loop_body {S} (f : S -> colvec) (set : colvec -> S -> S) (i : nat)
  : M S unit :=
  let* v := vec_at f i in
  if v =? 0 then vec_put f set i 1 else ret tt.

Definition wp {S A} (m : M S A) (Q : A -> world S -> Prop) (w : world S) : Prop :=
  exists a w', m w = (Ok a, w') /\ Q a w'.

Definition writes_cell {S} (F : nat -> nat -> float) (st : S) (out : Mat) (i j : nat)
  : unit -> world S -> Prop :=
  fun _ w' =>
    fst w' = st /\ same_size (snd w') out /\
    elem (snd w') i j = F i j /\
    forall i' j', (i' <> i \/ j' <> j) -> elem (snd w') i' j' = elem out i' j'.

(** Concrete inputs. *)
Definition no_output : Mat := mkMat 0 0 (fun _ _ => nan).
Definition row_2_4_6 : Mat := mat_of_rows 3 [[2; 4; 6]].
Definition row_5_5_5 : Mat := mat_of_rows 3 [[5; 5; 5]].

End B64.

(** ** The real number a double denotes, and exact operations

    [value x] reads a double as the number it stands for: the rational
    [+-m * 2^e] of a finite double (both zeros are 0), an infinity, or NaN.
    An operation of a run is exact when the double it returns denotes the
    result of the operation on the denoted numbers: it did not round,
    overflow or underflow. *)

Definition value (x : PrimFloat.float) : num :=
  match FloatOps.Prim2SF x with
  | SpecFloat.S754_zero _ => Fin 0
  | SpecFloat.S754_infinity s => if s then NInf else PInf
  | SpecFloat.S754_nan => NaN
  | SpecFloat.S754_finite s m e =>
      Fin ((if s then - inject_Z (Zpos m) else inject_Z (Zpos m)) * 2 ^ e)
  end.


(** The same number: equal rationals, or the same special value. *)
Definition nsame (a b : num) : Prop :=
  match a, b with
  | Fin x, Fin y => x == y
  | PInf, PInf | NInf, NInf | NaN, NaN => True
  | _, _ => False
  end.



























(** ** The number model on the values division by zero produces *)

Example one_over_zero : ndiv (Fin 1) (Fin 0) = PInf.
Proof. reflexivity. Qed.

Example zero_over_zero : ndiv (Fin 0) (Fin 0) = NaN.
Proof. reflexivity. Qed.

Example inf_is_not_zero : neqb PInf (Fin 0) = false.
Proof. reflexivity. Qed.

Example nan_is_not_zero : neqb NaN (Fin 0) = false.
Proof. reflexivity. Qed.

Example inf_minus_inf :
  nsub (nadd (nmul PInf (Fin 5)) (Fin 0)) (nmul (Fin 5) PInf) = NaN.
Proof. reflexivity. Qed.

Example one_over_inf : ndiv (Fin 1) PInf = Fin 0.
Proof. reflexivity. Qed.

(** ** Reasoning about runs *)

Section Wp.
Context {S : Type}.
Implicit Types (w : world S) (st : S) (out : Mat) (P : world S -> Prop).

Lemma wp_ret {A} (a : A) Q w : Q a w -> wp (ret a) Q w.
Proof. intros H. exists a, w. split; [reflexivity | exact H]. Qed.

Lemma wp_bind {A B} (m : M S A) (k : A -> M S B) Q w :
  wp m (fun a w' => wp (k a) Q w') w -> wp (bind m k) Q w.
Proof.
  intros (a & w' & Hm & (b & w'' & Hk & HQ)).
  exists b, w''. split; [| exact HQ].
  unfold bind. rewrite Hm. exact Hk.
Qed.

Lemma wp_mono {A} (m : M S A) (Q Q' : A -> world S -> Prop) w :
  (forall a w', Q a w' -> Q' a w') -> wp m Q w -> wp m Q' w.
Proof. intros HQ (a & w' & Hm & H). exists a, w'. auto. Qed.

Lemma wp_gets {A} (f : S -> A) Q st out :
  Q (f st) (st, out) -> wp (gets f) Q (st, out).
Proof. intros H. eexists _, _. split; [reflexivity | exact H]. Qed.

Lemma wp_modify (f : S -> S) Q st out :
  Q tt (f st, out) -> wp (modify f) Q (st, out).
Proof. intros H. eexists _, _. split; [reflexivity | exact H]. Qed.

Lemma wp_vec_at (f : S -> colvec) i v Q st out :
  f st !! i = Some v -> Q v (st, out) -> wp (vec_at f i) Q (st, out).
Proof.
  intros Hi H. exists v, (st, out). split; [| exact H].
  unfold vec_at. simpl. rewrite Hi. reflexivity.
Qed.

Lemma wp_vec_put (f : S -> colvec) set i x Q st out :
  (i < length (f st))%nat ->
  Q tt (set (<[i := x]> (f st)) st, out) ->
  wp (vec_put f set i x) Q (st, out).
Proof.
  intros Hi H. eexists _, _. split; [| exact H].
  unfold vec_put. simpl.
  destruct (Nat.ltb_spec i (length (f st))); [reflexivity | lia].
Qed.

Lemma in_bounds_true m i j :
  (i < n_rows m)%nat -> (j < n_cols m)%nat -> in_bounds m i j = true.
Proof.
  intros Hi Hj. unfold in_bounds.
  destruct (Nat.ltb_spec i (n_rows m)); [| lia].
  destruct (Nat.ltb_spec j (n_cols m)); [reflexivity | lia].
Qed.

Lemma wp_mat_at m i j Q w :
  (i < n_rows m)%nat -> (j < n_cols m)%nat ->
  Q (elem m i j) w -> wp (mat_at m i j) Q w.
Proof.
  intros Hi Hj H. eexists _, _. split; [| exact H].
  unfold mat_at. rewrite in_bounds_true by assumption. reflexivity.
Qed.

Lemma wp_output_copy_size input Q st out :
  Q tt (st, mat_copy_size out input) -> wp (output_copy_size input) Q (st, out).
Proof. intros H. eexists _, _. split; [reflexivity | exact H]. Qed.

Lemma wp_output_at i j Q st out :
  (i < n_rows out)%nat -> (j < n_cols out)%nat ->
  Q (elem out i j) (st, out) -> wp (output_at i j) Q (st, out).
Proof.
  intros Hi Hj H. eexists _, _. split; [| exact H].
  unfold output_at. simpl. rewrite in_bounds_true by assumption. reflexivity.
Qed.

Lemma wp_output_put i j v Q st out :
  (i < n_rows out)%nat -> (j < n_cols out)%nat ->
  Q tt (st, mat_update out i j v) -> wp (output_put i j v) Q (st, out).
Proof.
  intros Hi Hj H. eexists _, _. split; [| exact H].
  unfold output_put. simpl. rewrite in_bounds_true by assumption. reflexivity.
Qed.

(** The loop rule: an invariant indexed by the loop counter. *)
Lemma wp_for_from (I : nat -> world S -> Prop) body Q n :
  forall from w,
    I from w ->
    (forall k w', (from <= k < from + n)%nat -> I k w' ->
                  wp (body k) (fun _ => I (Datatypes.S k)) w') ->
    (forall w', I (from + n)%nat w' -> Q tt w') ->
    wp (for_from from n body) Q w.
Proof.
  induction n as [| n IH]; intros from w HI Hbody HQ; simpl.
  - apply wp_ret. apply HQ. rewrite Nat.add_0_r. exact HI.
  - apply wp_bind.
    eapply wp_mono; [| apply (Hbody from w); [lia | exact HI]].
    intros [] w' HI'. simpl in HI'.
    apply (IH (Datatypes.S from) w' HI').
    + intros k w'' Hk. apply Hbody. lia.
    + intros w'' H. apply HQ. replace (from + Datatypes.S n)%nat
        with (Datatypes.S from + n)%nat by lia. exact H.
Qed.

Lemma wp_for (I : nat -> world S -> Prop) body Q n w :
  I 0%nat w ->
  (forall k w', (k < n)%nat -> I k w' -> wp (body k) (fun _ => I (Datatypes.S k)) w') ->
  (forall w', I n w' -> Q tt w') ->
  wp (for_ n body) Q w.
Proof.
  intros HI Hbody HQ. unfold for_.
  apply (wp_for_from I body Q n 0%nat w HI).
  - intros k w' Hk. apply Hbody. lia.
  - exact HQ.
Qed.

Lemma keeps_ret {A} P (a : A) : keeps P (ret a).
Proof. intros w H. exact H. Qed.

Lemma keeps_bind {A B} P (m : M S A) (k : A -> M S B) :
  keeps P m -> (forall a, keeps P (k a)) -> keeps P (bind m k).
Proof.
  intros Hm Hk w H. unfold bind.
  specialize (Hm w H). destruct (m w) as [[a |] w']; simpl in *.
  - apply Hk. exact Hm.
  - exact Hm.
Qed.

Lemma keeps_gets {A} P (f : S -> A) : keeps P (gets f).
Proof. intros w H. exact H. Qed.

Lemma keeps_vec_at P f i : keeps P (vec_at f i).
Proof. intros w H. unfold vec_at. destruct (f (fst w) !! i); exact H. Qed.

Lemma keeps_mat_at P m i j : keeps P (mat_at m i j).
Proof. intros w H. unfold mat_at. destruct (in_bounds m i j); exact H. Qed.

Lemma keeps_output_at P i j : keeps P (output_at i j).
Proof. intros w H. unfold output_at. destruct (in_bounds (snd w) i j); exact H. Qed.

Lemma keeps_output_put P i j v :
  (forall st out, P (st, out) -> P (st, mat_update out i j v)) ->
  keeps P (output_put i j v).
Proof.
  intros HP [st out] H. unfold output_put. simpl.
  destruct (in_bounds out i j); simpl; auto.
Qed.

Lemma keeps_for_from P body n :
  (forall k, keeps P (body k)) -> forall from, keeps P (for_from from n body).
Proof.
  intros Hb. induction n as [| n IH]; intros from; simpl.
  - apply keeps_ret.
  - apply keeps_bind; [apply Hb | intros _; apply IH].
Qed.

Lemma keeps_for P body n :
  (forall k, keeps P (body k)) -> keeps P (for_ n body).
Proof. intros Hb. apply keeps_for_from. exact Hb. Qed.

End Wp.

(** ** The two loops both classes share *)

Lemma lookup_map {A B} (f : A -> B) (l : list A) (i : nat) :
  map f l !! i = option_map f (l !! i).
Proof.
  revert i. induction l as [| x l IH]; intros [| i]; simpl; auto.
Qed.

Lemma lookup_map_seq {B} (f : nat -> B) (n i : nat) :
  (i < n)%nat -> map f (seq 0 n) !! i = Some (f i).
Proof.
  intros Hi. rewrite lookup_map, lookup_seq_lt by exact Hi. reflexivity.
Qed.

Lemma map_take_drop_step (s0 : colvec) (k : nat) (x : num) :
  s0 !! k = Some x ->
  <[k := nonzero_or_one x]> (map nonzero_or_one (take k s0) ++ drop k s0)
  = map nonzero_or_one (take (Datatypes.S k) s0) ++ drop (Datatypes.S k) s0.
Proof.
  intros Hk.
  assert (Hlt : (k < length s0)%nat) by (eapply lookup_lt_Some; exact Hk).
  assert (Hlen : length (map nonzero_or_one (take k s0)) = k)
    by (rewrite length_map, length_take; lia).
  rewrite insert_app_r_alt by lia.
  rewrite Hlen, Nat.sub_diag.
  rewrite (drop_S s0 x k Hk). simpl.
  rewrite (take_S_r s0 k x Hk), map_app. simpl.
  rewrite <- app_assoc. reflexivity.
Qed.

Section SharedLoops.
Context {S : Type}.

(** A vector field with its setter. *)
Variables (f : S -> colvec) (set : colvec -> S -> S).
Hypothesis f_set : forall v s, f (set v s) = v.
Hypothesis set_set : forall v v' s, set v (set v' s) = set v s.
Hypothesis set_f : forall s, set (f s) s = s.

(** The zero-handling loop replaces the vector by its image under
    [nonzero_or_one] and touches nothing else. *)
Lemma wp_zero_loop Q st out :
  Q tt (set (map nonzero_or_one (f st)) st, out) ->
  wp (for_ (length (f st)) (zero_loop_body f set)) Q (st, out).
Proof using f_set set_set set_f.
  intros HQ.
  apply (wp_for (fun k w =>
    w = (set (map nonzero_or_one (take k (f st)) ++ drop k (f st)) st, out))).
  - simpl. rewrite drop_0, set_f. reflexivity.
  - intros k w' Hk ->.
    destruct (lookup_lt_is_Some_2 (f st) k Hk) as [x Hx].
    unfold zero_loop_body. apply wp_bind.
    apply (wp_vec_at _ _ x).
    + rewrite f_set.
      rewrite lookup_app_r; rewrite length_map, length_take; [| lia].
      replace (k - k `min` length (f st))%nat with 0%nat by lia.
      rewrite lookup_drop, Nat.add_0_r. exact Hx.
    + pose proof (map_take_drop_step (f st) k x Hx) as Hstep.
      unfold nonzero_or_one at 1 in Hstep.
      destruct (neqb x (Fin 0)) eqn:Hz.
      * apply wp_vec_put.
        { rewrite f_set, length_app, length_map, length_take, length_drop. lia. }
        rewrite f_set, set_set, Hstep. reflexivity.
      * apply wp_ret. rewrite <- Hstep.
        rewrite list_insert_id; [reflexivity |].
        rewrite lookup_app_r; rewrite length_map, length_take; [| lia].
        replace (k - k `min` length (f st))%nat with 0%nat by lia.
        rewrite lookup_drop, Nat.add_0_r. exact Hx.
  - intros w' ->.
    rewrite firstn_all, drop_all, app_nil_r. exact HQ.
Qed.

(** The element-wise loop nest: when every run of the body is a
    [writes_cell], the nest completes and fills the output with [F]. *)
Lemma wp_elementwise (F : nat -> nat -> num) (st : S) (input : Mat)
      (body : nat -> nat -> M S unit) Q :
  (forall i j out, (i < n_rows input)%nat -> (j < n_cols input)%nat ->
                   same_size out input ->
                   wp (body i j) (writes_cell F st out i j) (st, out)) ->
  forall out,
    same_size out input ->
    (forall out', same_size out' input ->
                  (forall i j, (i < n_rows input)%nat -> (j < n_cols input)%nat ->
                               elem out' i j = F i j) ->
                  Q tt (st, out')) ->
    wp (for_ (n_rows input) (fun i => for_ (n_cols input) (body i))) Q (st, out).
Proof using Type.
  intros Hbody out Hsz HQ.
  apply (wp_for (fun k w =>
    fst w = st /\ same_size (snd w) input /\
    forall i j, (i < k)%nat -> (j < n_cols input)%nat -> elem (snd w) i j = F i j)).
  - simpl. repeat split; try apply Hsz. intros i j Hi. lia.
  - intros i [st' o] Hi (Hst & Hso & Hdone). simpl in *. subst st'.
    apply (wp_for (fun l w =>
      fst w = st /\ same_size (snd w) input /\
      (forall i' j, (i' < i)%nat -> (j < n_cols input)%nat ->
                    elem (snd w) i' j = F i' j) /\
      (forall j, (j < l)%nat -> elem (snd w) i j = F i j))).
    + simpl. repeat split; try apply Hso; auto. intros j Hj. lia.
    + intros j [st' o'] Hj (Hst & Hso' & Hrows & Hcells). simpl in *. subst st'.
      eapply wp_mono; [| apply (Hbody i j o' Hi Hj Hso')].
      intros [] [st'' o''] (Hst & Hsz'' & Hij & Hframe). simpl in *.
      split; [exact Hst |]. split.
      { destruct Hsz'', Hso'. split; congruence. }
      split.
      * intros i' j' Hi' Hj'. rewrite Hframe by lia. auto.
      * intros j' Hj'. destruct (Nat.eq_dec j' j) as [-> | Hne]; [exact Hij |].
        rewrite Hframe by lia. apply Hcells. lia.
    + intros [st' o'] (Hst & Hso' & Hrows & Hcells). simpl in *.
      split; [exact Hst |]. split; [exact Hso' |].
      intros i' j' Hi' Hj'.
      destruct (Nat.eq_dec i' i) as [-> | Hne]; [apply Hcells; exact Hj' |].
      apply Hrows; [lia | exact Hj'].
  - intros [st' o'] (Hst & Hso' & Hall). simpl in *. subst st'.
    apply HQ; assumption.
Qed.

End SharedLoops.

(** ** Facts about the containers *)

Lemma elem_update_same m i j v : elem (mat_update m i j v) i j = v.
Proof. simpl. rewrite !Nat.eqb_refl. reflexivity. Qed.

Lemma elem_update_other m i j v i' j' :
  (i' <> i \/ j' <> j) -> elem (mat_update m i j v) i' j' = elem m i' j'.
Proof.
  intros H. simpl.
  destruct (Nat.eqb_spec i' i); destruct (Nat.eqb_spec j' j); simpl; try reflexivity.
  lia.
Qed.

Lemma same_size_copy_size m x : same_size (mat_copy_size m x) x.
Proof. split; reflexivity. Qed.

Lemma arma_mean_lookup m i :
  (0 < n_cols m)%nat -> (i < n_rows m)%nat -> arma_mean m !! i = Some (row_mean m i).
Proof.
  intros Hc Hi. unfold arma_mean.
  destruct (Nat.eqb_spec (n_cols m) 0); [lia |]. apply lookup_map_seq, Hi.
Qed.

Lemma arma_min_lookup m i :
  (0 < n_cols m)%nat -> (i < n_rows m)%nat -> arma_min m !! i = Some (row_min m i).
Proof.
  intros Hc Hi. unfold arma_min.
  destruct (Nat.eqb_spec (n_cols m) 0); [lia |]. apply lookup_map_seq, Hi.
Qed.

Lemma arma_max_lookup m i :
  (0 < n_cols m)%nat -> (i < n_rows m)%nat -> arma_max m !! i = Some (row_max m i).
Proof.
  intros Hc Hi. unfold arma_max.
  destruct (Nat.eqb_spec (n_cols m) 0); [lia |]. apply lookup_map_seq, Hi.
Qed.

Lemma vec_sub_lookup (a b : colvec) i x y :
  a !! i = Some x -> b !! i = Some y -> vec_sub a b !! i = Some (nsub x y).
Proof.
  intros Ha Hb. unfold vec_sub. rewrite lookup_zip_with, Ha, Hb. reflexivity.
Qed.

Lemma range_lookup m i :
  (0 < n_cols m)%nat -> (i < n_rows m)%nat ->
  vec_sub (arma_max m) (arma_min m) !! i = Some (nsub (row_max m i) (row_min m i)).
Proof.
  intros Hc Hi. apply vec_sub_lookup;
    [apply arma_max_lookup | apply arma_min_lookup]; assumption.
Qed.

(** ** MeanNormalization: what a run computes *)

Module MeanNormalizationFacts.
Import MeanNormalization MeanNormalizationFit.

Lemma MN_scale_get_set v s : scale (set_scale v s) = v.
Proof. reflexivity. Qed.

Lemma MN_scale_set_set v v' s : set_scale v (set_scale v' s) = set_scale v s.
Proof. reflexivity. Qed.

Lemma MN_scale_set_get s : set_scale (scale s) s = s.
Proof. destruct s; reflexivity. Qed.

Lemma MN_fitted_scale_lookup input i :
  (0 < n_cols input)%nat -> (i < n_rows input)%nat ->
  scale (fitted input) !! i = Some (scale_of input i).
Proof.
  intros Hc Hi. simpl. rewrite lookup_map, range_lookup by assumption. reflexivity.
Qed.

(** [Transform] always completes; it leaves the fields [fitted input] and
    an output of the size of the input whose element [(i, j)] is
    [(input(i, j) - mean_i) / scale_i]. *)
Lemma MN_Transform_run input st out :
  exists out',
    Transform input (st, out) = (Ok tt, (fitted input, out')) /\
    same_size out' input /\
    forall i j, (i < n_rows input)%nat -> (j < n_cols input)%nat ->
      elem out' i j
      = ndiv (nsub (elem input i j) (row_mean input i)) (scale_of input i).
Proof.
  enough (Hwp : wp (Transform input)
    (fun _ w' => fst w' = fitted input /\ same_size (snd w') input /\
       forall i j, (i < n_rows input)%nat -> (j < n_cols input)%nat ->
         elem (snd w') i j
         = ndiv (nsub (elem input i j) (row_mean input i)) (scale_of input i))
    (st, out)).
  { destruct Hwp as ([] & [st' out'] & Hrun & Hst & Hrest). simpl in *. subst st'.
    exists out'. split; [exact Hrun | exact Hrest]. }
  unfold Transform.
  apply wp_bind, wp_output_copy_size.
  do 4 (apply wp_bind, wp_modify).
  apply wp_bind, wp_gets.
  apply wp_bind.
  apply (wp_zero_loop scale set_scale MN_scale_get_set MN_scale_set_set MN_scale_set_get).
  simpl. fold (fitted input).
  apply (wp_elementwise
           (fun i j => ndiv (nsub (elem input i j) (row_mean input i))
                            (scale_of input i))).
  - intros i j o Hi Hj [Hr Hc].
    assert (Hpos : (0 < n_cols input)%nat) by lia.
    apply wp_bind, wp_mat_at; [exact Hi | exact Hj |].
    apply wp_bind, (wp_vec_at _ _ (row_mean input i));
      [apply arma_mean_lookup; assumption |].
    apply wp_bind, wp_output_put; [lia | lia |].
    apply wp_bind, wp_output_at; [simpl; lia | simpl; lia |].
    apply wp_bind, (wp_vec_at _ _ (scale_of input i));
      [apply MN_fitted_scale_lookup; assumption |].
    apply wp_output_put; [simpl; lia | simpl; lia |].
    unfold writes_cell. cbn [fst snd]. rewrite !elem_update_same.
    split; [reflexivity |]. split; [split; reflexivity |].
    split; [reflexivity |].
    intros i' j' Hne. rewrite !elem_update_other by exact Hne. reflexivity.
  - apply same_size_copy_size.
  - intros out' Hsz Hall. simpl. auto.
Qed.


End MeanNormalizationFacts.

(** ** MinMaxScaler: what a run computes *)

Module MinMaxScalerFacts.
Import MinMaxScaler MinMaxScalerFit.

Lemma MM_scale_get_set v s : scale (set_scale v s) = v.
Proof. reflexivity. Qed.

Lemma MM_scale_set_set v v' s : set_scale v (set_scale v' s) = set_scale v s.
Proof. reflexivity. Qed.

Lemma MM_scale_set_get s : set_scale (scale s) s = s.
Proof. destruct s; reflexivity. Qed.

Lemma MM_fitted_scale_lookup st input i :
  (0 < n_cols input)%nat -> (i < n_rows input)%nat ->
  scale (fitted st input) !! i
  = Some (scale_of (scalemin st) (scalemax st) input i).
Proof.
  intros Hc Hi. simpl. unfold scalar_div_vec.
  rewrite !lookup_map, range_lookup by assumption. reflexivity.
Qed.

(** [Transform] always completes; it leaves the fields [fitted st input]
    and an output of the size of the input whose element [(i, j)] is
    [scale_i * input(i, j) + scalemin - min_i * scale_i]. *)
Lemma MM_Transform_run input st out :
  exists out',
    Transform input (st, out) = (Ok tt, (fitted st input, out')) /\
    same_size out' input /\
    forall i j, (i < n_rows input)%nat -> (j < n_cols input)%nat ->
      elem out' i j
      = nsub (nadd (nmul (scale_of (scalemin st) (scalemax st) input i)
                         (elem input i j))
                   (scalemin st))
             (nmul (row_min input i)
                   (scale_of (scalemin st) (scalemax st) input i)).
Proof.
  set (F := fun i j =>
    nsub (nadd (nmul (scale_of (scalemin st) (scalemax st) input i)
                     (elem input i j))
               (scalemin st))
         (nmul (row_min input i)
               (scale_of (scalemin st) (scalemax st) input i))).
  enough (Hwp : wp (Transform input)
    (fun _ w' => fst w' = fitted st input /\ same_size (snd w') input /\
       forall i j, (i < n_rows input)%nat -> (j < n_cols input)%nat ->
         elem (snd w') i j = F i j)
    (st, out)).
  { destruct Hwp as ([] & [st' out'] & Hrun & Hst & Hrest). simpl in *. subst st'.
    exists out'. split; [exact Hrun | exact Hrest]. }
  unfold Transform.
  apply wp_bind, wp_output_copy_size.
  do 3 (apply wp_bind, wp_modify).
  apply wp_bind, wp_gets.
  apply wp_bind.
  apply (wp_zero_loop scale set_scale MM_scale_get_set MM_scale_set_set MM_scale_set_get).
  change (set_scale _ _) with (fitted st input).
  apply (wp_elementwise F).
  - intros i j o Hi Hj [Hr Hc].
    assert (Hpos : (0 < n_cols input)%nat) by lia.
    apply wp_bind, (wp_vec_at _ _ (scale_of (scalemin st) (scalemax st) input i));
      [apply MM_fitted_scale_lookup; assumption |].
    apply wp_bind, wp_mat_at; [exact Hi | exact Hj |].
    apply wp_bind, wp_gets.
    apply wp_bind, (wp_vec_at _ _ (row_min input i));
      [apply arma_min_lookup; assumption |].
    apply wp_bind, (wp_vec_at _ _ (scale_of (scalemin st) (scalemax st) input i));
      [apply MM_fitted_scale_lookup; assumption |].
    apply wp_output_put; [lia | lia |].
    unfold writes_cell. cbn [fst snd]. rewrite !elem_update_same.
    split; [reflexivity |]. split; [split; reflexivity |].
    split; [reflexivity |].
    intros i' j' Hne. rewrite !elem_update_other by exact Hne. reflexivity.
  - apply same_size_copy_size.
  - intros out' Hsz Hall. simpl. auto.
Qed.


End MinMaxScalerFacts.

(** ** Matrices of finite numbers *)

Lemma is_fin_to_Q a : is_fin a = true -> a = Fin (to_Q a).
Proof. destruct a; simpl; intros H; try discriminate. reflexivity. Qed.

Lemma forallb_seq_lt (p : nat -> bool) n i :
  forallb p (seq 0 n) = true -> (i < n)%nat -> p i = true.
Proof.
  intros H Hi. rewrite forallb_forall in H. apply H, in_seq. lia.
Qed.


Lemma finite_row_elem m i j :
  finite_row m i = true -> (j < n_cols m)%nat -> is_fin (elem m i j) = true.
Proof. apply (forallb_seq_lt (fun j => is_fin (elem m i j))). Qed.


Lemma nltb_Fin x y : nltb (Fin x) (Fin y) = true <-> x < y.
Proof.
  simpl. rewrite Qlt_alt. destruct (x ?= y); split; congruence.
Qed.

Lemma nltb_Fin_false x y : nltb (Fin x) (Fin y) = false <-> y <= x.
Proof.
  simpl. destruct (Qcompare_spec x y) as [H | H | H]; split; intros H';
    try reflexivity; try discriminate; try lra.
Qed.

Lemma neqb_Fin x y : neqb (Fin x) (Fin y) = true <-> x == y.
Proof. simpl. apply Qeq_bool_iff. Qed.

(** *** The scans of [arma::min] and [arma::max] on a finite row *)

Section Scan.
Variable g : nat -> num.

Lemma fold_min_spec js : forall cur,
  is_fin cur = true ->
  (forall j, In j js -> is_fin (g j) = true) ->
  (fold_left (min_step g) js cur = cur \/
   exists j, In j js /\ fold_left (min_step g) js cur = g j) /\
  is_fin (fold_left (min_step g) js cur) = true /\
  to_Q (fold_left (min_step g) js cur) <= to_Q cur /\
  forall j, In j js -> to_Q (fold_left (min_step g) js cur) <= to_Q (g j).
Proof using Type.
  induction js as [| j0 js IH]; intros cur Hcur Hjs; simpl.
  - repeat split; auto; [lra | intros j []].
  - assert (Hg0 : is_fin (g j0) = true) by (apply Hjs; left; reflexivity).
    assert (Hstep : is_fin (min_step g cur j0) = true)
      by (unfold min_step; destruct (nltb (g j0) cur); assumption).
    destruct (IH (min_step g cur j0) Hstep (fun j H => Hjs j (or_intror H)))
      as (Hin & Hfin & Hle & Hall).
    assert (Hcmp : to_Q (min_step g cur j0) <= to_Q cur /\
                   to_Q (min_step g cur j0) <= to_Q (g j0)).
    { unfold min_step.
      rewrite (is_fin_to_Q _ Hcur), (is_fin_to_Q _ Hg0).
      destruct (nltb (Fin (to_Q (g j0))) (Fin (to_Q cur))) eqn:E; simpl.
      - apply nltb_Fin in E. lra.
      - apply nltb_Fin_false in E. lra. }
    split; [| split; [exact Hfin | split; [lra |]]].
    + destruct Hin as [Heq | (j & Hj & Heq)].
      * rewrite Heq. unfold min_step. destruct (nltb (g j0) cur); eauto.
      * right. exists j. auto.
    + intros j [<- | Hj]; [lra | apply Hall, Hj].
Qed.

Lemma fold_max_spec js : forall cur,
  is_fin cur = true ->
  (forall j, In j js -> is_fin (g j) = true) ->
  (fold_left (max_step g) js cur = cur \/
   exists j, In j js /\ fold_left (max_step g) js cur = g j) /\
  is_fin (fold_left (max_step g) js cur) = true /\
  to_Q cur <= to_Q (fold_left (max_step g) js cur) /\
  forall j, In j js -> to_Q (g j) <= to_Q (fold_left (max_step g) js cur).
Proof using Type.
  induction js as [| j0 js IH]; intros cur Hcur Hjs; simpl.
  - repeat split; auto; [lra | intros j []].
  - assert (Hg0 : is_fin (g j0) = true) by (apply Hjs; left; reflexivity).
    assert (Hstep : is_fin (max_step g cur j0) = true)
      by (unfold max_step; destruct (nltb cur (g j0)); assumption).
    destruct (IH (max_step g cur j0) Hstep (fun j H => Hjs j (or_intror H)))
      as (Hin & Hfin & Hle & Hall).
    assert (Hcmp : to_Q cur <= to_Q (max_step g cur j0) /\
                   to_Q (g j0) <= to_Q (max_step g cur j0)).
    { unfold max_step.
      rewrite (is_fin_to_Q _ Hcur), (is_fin_to_Q _ Hg0).
      destruct (nltb (Fin (to_Q cur)) (Fin (to_Q (g j0)))) eqn:E; simpl.
      - apply nltb_Fin in E. lra.
      - apply nltb_Fin_false in E. lra. }
    split; [| split; [exact Hfin | split; [lra |]]].
    + destruct Hin as [Heq | (j & Hj & Heq)].
      * rewrite Heq. unfold max_step. destruct (nltb cur (g j0)); eauto.
      * right. exists j. auto.
    + intros j [<- | Hj]; [lra | apply Hall, Hj].
Qed.

End Scan.

(** On a finite row with at least one column, [row_min] is an element of
    the row that is below every element, and [row_max] one that is above. *)
Lemma row_min_spec m i :
  (0 < n_cols m)%nat -> finite_row m i = true ->
  (exists j, (j < n_cols m)%nat /\ row_min m i = elem m i j) /\
  is_fin (row_min m i) = true /\
  forall j, (j < n_cols m)%nat -> to_Q (row_min m i) <= to_Q (elem m i j).
Proof.
  intros Hc Hfin.
  assert (H0 : is_fin (elem m i 0%nat) = true) by (apply finite_row_elem; assumption).
  destruct (fold_min_spec (elem m i) (seq 1 (n_cols m - 1)) (elem m i 0%nat) H0)
    as (Hin & Hf & Hle & Hall).
  { intros j Hj. apply in_seq in Hj. apply finite_row_elem; [exact Hfin | lia]. }
  change (fold_left (min_step (elem m i)) (seq 1 (n_cols m - 1)) (elem m i 0%nat))
    with (row_min m i) in *.
  split; [| split; [exact Hf |]].
  - destruct Hin as [Heq | (j & Hj & Heq)].
    + exists 0%nat. auto.
    + exists j. apply in_seq in Hj. split; [lia | exact Heq].
  - intros [| j] Hj; [exact Hle |]. apply Hall, in_seq. lia.
Qed.

Lemma row_max_spec m i :
  (0 < n_cols m)%nat -> finite_row m i = true ->
  (exists j, (j < n_cols m)%nat /\ row_max m i = elem m i j) /\
  is_fin (row_max m i) = true /\
  forall j, (j < n_cols m)%nat -> to_Q (elem m i j) <= to_Q (row_max m i).
Proof.
  intros Hc Hfin.
  assert (H0 : is_fin (elem m i 0%nat) = true) by (apply finite_row_elem; assumption).
  destruct (fold_max_spec (elem m i) (seq 1 (n_cols m - 1)) (elem m i 0%nat) H0)
    as (Hin & Hf & Hle & Hall).
  { intros j Hj. apply in_seq in Hj. apply finite_row_elem; [exact Hfin | lia]. }
  change (fold_left (max_step (elem m i)) (seq 1 (n_cols m - 1)) (elem m i 0%nat))
    with (row_max m i) in *.
  split; [| split; [exact Hf |]].
  - destruct Hin as [Heq | (j & Hj & Heq)].
    + exists 0%nat. auto.
    + exists j. apply in_seq in Hj. split; [lia | exact Heq].
  - intros [| j] Hj; [exact Hle |]. apply Hall, in_seq. lia.
Qed.

(** *** Arithmetic on finite numbers *)


Lemma nsub_Fin a b : nsub (Fin a) (Fin b) = Fin (a - b).
Proof. reflexivity. Qed.


Lemma ndiv_Fin a b : ~ b == 0 -> ndiv (Fin a) (Fin b) = Fin (a / b).
Proof.
  intros Hb. simpl. destruct (Qeq_bool b 0) eqn:E; [| reflexivity].
  apply Qeq_bool_eq in E. contradiction.
Qed.


Lemma nonzero_or_one_zero a : a == 0 -> nonzero_or_one (Fin a) = Fin 1.
Proof.
  intros Ha. unfold nonzero_or_one. simpl. rewrite (Qeq_eq_bool _ _ Ha). reflexivity.
Qed.

(** After the zero-handling loop no entry compares equal to zero. *)
Lemma nonzero_or_one_nonzero v : neqb (nonzero_or_one v) (Fin 0) = false.
Proof.
  unfold nonzero_or_one. destruct (neqb v (Fin 0)) eqn:E; [reflexivity | exact E].
Qed.

Lemma of_nat_nonzero n : (0 < n)%nat -> ~ inject_Z (Z.of_nat n) == 0.
Proof. intros Hn. unfold Qeq. simpl. lia. Qed.

Lemma inject_Z_succ n :
  inject_Z (Z.of_nat (Datatypes.S n)) == inject_Z (Z.of_nat n) + 1.
Proof. rewrite Nat2Z.inj_succ, <- Z.add_1_r, inject_Z_plus. reflexivity. Qed.

(** *** Row sums *)

Lemma fold_sum_fin (g : nat -> num) js : forall acc,
  (forall j, In j js -> is_fin (g j) = true) ->
  fold_left (fun a j => nadd a (g j)) js (Fin acc)
  = Fin (qsum (fun j => to_Q (g j)) js acc).
Proof.
  induction js as [| j0 js IH]; intros acc Hjs; [reflexivity |].
  change (fold_left (fun a j => nadd a (g j)) js (nadd (Fin acc) (g j0))
          = Fin (qsum (fun j => to_Q (g j)) js (acc + to_Q (g j0)))).
  assert (H0 : nadd (Fin acc) (g j0) = Fin (acc + to_Q (g j0))).
  { specialize (Hjs j0 (or_introl eq_refl)).
    destruct (g j0); try discriminate Hjs. reflexivity. }
  rewrite H0. apply IH. intros j Hj. apply Hjs. right. exact Hj.
Qed.

Lemma row_sum_fin m i :
  finite_row m i = true ->
  row_sum m i = Fin (qsum (fun j => to_Q (elem m i j)) (seq 0 (n_cols m)) 0).
Proof.
  intros Hfin. unfold row_sum. apply fold_sum_fin.
  intros j Hj. apply in_seq in Hj. apply finite_row_elem; [exact Hfin | lia].
Qed.

Lemma row_mean_fin m i :
  (0 < n_cols m)%nat -> finite_row m i = true ->
  row_mean m i
  = Fin (qsum (fun j => to_Q (elem m i j)) (seq 0 (n_cols m)) 0
         / inject_Z (Z.of_nat (n_cols m))).
Proof.
  intros Hc Hfin. unfold row_mean, of_nat.
  rewrite row_sum_fin by exact Hfin.
  apply ndiv_Fin, of_nat_nonzero, Hc.
Qed.


(** ** Reading a run through [completed], [fields_after], [output_after] *)

Lemma run_Ok {S} (r : outcome unit * world S) st out :
  r = (Ok tt, (st, out)) ->
  completed r = true /\ fields_after r = st /\ output_after r = out.
Proof. intros ->. repeat split. Qed.

(** ** The formulas of [Transform] *)

(** C3.  [MinMaxScaler::Transform] completes on every input; for each
    in-bounds position [(i, j)] it has stored min_i and max_i, the extrema
    of row [i], and scale_i = (scalemax - scalemin) / (max_i - min_i) with a
    zero quotient replaced by 1, and has written
    output(i, j) = scale_i * input(i, j) + scalemin - min_i * scale_i.
    With the default range the row [2, 4, 6] becomes [0, 1/2, 1]. *)
Theorem minmax_transform_formula :
  (forall (st : MinMaxScaler.t) (input out : Mat),
      let r := MinMaxScaler.Transform input (st, out) in
      completed r = true /\
      forall i j, (i < n_rows input)%nat -> (j < n_cols input)%nat ->
        exists mn mx sc,
          MinMaxScaler.itemMin (fields_after r) !! i = Some mn /\
          mn = row_min input i /\
          MinMaxScaler.itemMax (fields_after r) !! i = Some mx /\
          mx = row_max input i /\
          MinMaxScaler.scale (fields_after r) !! i = Some sc /\
          sc = nonzero_or_one
                 (ndiv (nsub (MinMaxScaler.scalemax st) (MinMaxScaler.scalemin st))
                       (nsub mx mn)) /\
          elem (output_after r) i j
          = nsub (nadd (nmul sc (elem input i j)) (MinMaxScaler.scalemin st))
                 (nmul mn sc)) /\
  (forall out,
      let r := MinMaxScaler.Transform row_2_4_6 (MinMaxScaler.default, out) in
      completed r = true /\
      vec_eqb (row (output_after r) 0) [Fin 0; Fin (1 # 2); Fin 1] = true).
Proof.
  split.
  - intros st input out r.
    destruct (MinMaxScalerFacts.MM_Transform_run input st out)
      as (out' & Hrun & Hsz & Hel).
    destruct (run_Ok r _ _ Hrun) as (Hc & Hf & Ho).
    split; [exact Hc |]. intros i j Hi Hj. rewrite Hf, Ho.
    assert (Hpos : (0 < n_cols input)%nat) by lia.
    exists (row_min input i), (row_max input i),
      (MinMaxScalerFit.scale_of (MinMaxScaler.scalemin st)
                                  (MinMaxScaler.scalemax st) input i).
    split; [apply arma_min_lookup; assumption |]. split; [reflexivity |].
    split; [apply arma_max_lookup; assumption |]. split; [reflexivity |].
    split; [apply MinMaxScalerFacts.MM_fitted_scale_lookup; assumption |].
    split; [reflexivity |]. apply Hel; assumption.
  - intros out. vm_compute. split; reflexivity.
Qed.

Lemma minmax_transform_formula_witness :
  let r := MinMaxScaler.Transform row_2_4_6 (MinMaxScaler.default, no_output) in
  exists sc,
    MinMaxScaler.scale (fields_after r) !! 0%nat = Some sc /\
    elem (output_after r) 0 1 = nsub (nadd (nmul sc (Fin 4)) (Fin 0)) (nmul (Fin 2) sc).
Proof.
  destruct (proj1 minmax_transform_formula MinMaxScaler.default row_2_4_6 no_output)
    as [_ H].
  destruct (H 0%nat 1%nat) as (mn & mx & sc & _ & Hmn & _ & _ & Hsc & _ & Hel).
  - simpl. lia.
  - simpl. lia.
  - exists sc. split; [exact Hsc |]. rewrite Hel, Hmn. reflexivity.
Defined.

(** C4.  [MeanNormalization::Transform] completes on every input; for each
    in-bounds position [(i, j)] it has stored mean_i, the average of row
    [i], min_i and max_i, its extrema, and scale_i = max_i - min_i with a
    zero difference replaced by 1, and has written
    output(i, j) = (input(i, j) - mean_i) / scale_i.
    The row [2, 4, 6] becomes [-1/2, 0, 1/2]. *)
Theorem mean_transform_formula :
  (forall (st : MeanNormalization.t) (input out : Mat),
      let r := MeanNormalization.Transform input (st, out) in
      completed r = true /\
      forall i j, (i < n_rows input)%nat -> (j < n_cols input)%nat ->
        exists mean mn mx sc,
          MeanNormalization.itemMean (fields_after r) !! i = Some mean /\
          mean = ndiv (row_sum input i) (of_nat (n_cols input)) /\
          MeanNormalization.itemMin (fields_after r) !! i = Some mn /\
          mn = row_min input i /\
          MeanNormalization.itemMax (fields_after r) !! i = Some mx /\
          mx = row_max input i /\
          MeanNormalization.scale (fields_after r) !! i = Some sc /\
          sc = nonzero_or_one (nsub mx mn) /\
          elem (output_after r) i j = ndiv (nsub (elem input i j) mean) sc) /\
  (forall st out,
      let r := MeanNormalization.Transform row_2_4_6 (st, out) in
      completed r = true /\
      vec_eqb (row (output_after r) 0) [Fin (- 1 # 2); Fin 0; Fin (1 # 2)] = true).
Proof.
  split.
  - intros st input out r.
    destruct (MeanNormalizationFacts.MN_Transform_run input st out)
      as (out' & Hrun & Hsz & Hel).
    destruct (run_Ok r _ _ Hrun) as (Hc & Hf & Ho).
    split; [exact Hc |]. intros i j Hi Hj. rewrite Hf, Ho.
    assert (Hpos : (0 < n_cols input)%nat) by lia.
    exists (row_mean input i), (row_min input i), (row_max input i),
      (MeanNormalizationFit.scale_of input i).
    split; [apply arma_mean_lookup; assumption |]. split; [reflexivity |].
    split; [apply arma_min_lookup; assumption |]. split; [reflexivity |].
    split; [apply arma_max_lookup; assumption |]. split; [reflexivity |].
    split; [apply MeanNormalizationFacts.MN_fitted_scale_lookup; assumption |].
    split; [reflexivity |]. apply Hel; assumption.
  - intros st out. vm_compute. split; reflexivity.
Qed.

Lemma mean_transform_formula_witness :
  let r := MeanNormalization.Transform row_2_4_6 (MeanNormalization.init, no_output) in
  exists mean sc,
    MeanNormalization.itemMean (fields_after r) !! 0%nat = Some mean /\
    MeanNormalization.scale (fields_after r) !! 0%nat = Some sc /\
    elem (output_after r) 0 1 = ndiv (nsub (Fin 4) mean) sc.
Proof.
  destruct (proj1 mean_transform_formula MeanNormalization.init row_2_4_6 no_output)
    as [_ H].
  destruct (H 0%nat 1%nat)
    as (mean & mn & mx & sc & Hmean & _ & _ & _ & _ & _ & Hsc & _ & Hel).
  - simpl. lia.
  - simpl. lia.
  - exists mean, sc. split; [exact Hmean |]. split; [exact Hsc | exact Hel].
Defined.

(** ** Frame properties of [InverseTransform] *)

Ltac keeps_steps :=
  repeat first
    [ apply keeps_for; intros ?
    | apply keeps_bind; [| intros ?]
    | apply keeps_mat_at
    | apply keeps_vec_at
    | apply keeps_gets
    | apply keeps_output_at
    | apply keeps_output_put; intros ? ? ? ].

Lemma MN_inverse_keeps (P : world MeanNormalization.t -> Prop) input :
  (forall st out i j v, P (st, out) -> P (st, mat_update out i j v)) ->
  forall st out,
    P (st, mat_copy_size out input) ->
    P (snd (MeanNormalization.InverseTransform input (st, out))).
Proof.
  intros Hupd st out HP.
  unfold MeanNormalization.InverseTransform, bind at 1. simpl.
  revert HP. generalize (st, mat_copy_size out input).
  apply keeps_for. intros i. keeps_steps; apply Hupd; assumption.
Qed.

Lemma MM_inverse_keeps (P : world MinMaxScaler.t -> Prop) input :
  (forall st out i j v, P (st, out) -> P (st, mat_update out i j v)) ->
  forall st out,
    P (st, mat_copy_size out input) ->
    P (snd (MinMaxScaler.InverseTransform input (st, out))).
Proof.
  intros Hupd st out HP.
  unfold MinMaxScaler.InverseTransform, bind at 1. simpl.
  revert HP. generalize (st, mat_copy_size out input).
  apply keeps_for. intros i. keeps_steps; apply Hupd; assumption.
Qed.

(** C8.  Whatever the object, the input and the matrix passed as output,
    and whether or not the call completes, the output matrix has the
    number of rows and of columns of the input after [Transform] and after
    [InverseTransform], in both classes. *)
Theorem output_has_input_size (input out : Mat) :
  (forall st, same_size (output_after (MeanNormalization.Transform input (st, out))) input) /\
  (forall st, same_size (output_after (MeanNormalization.InverseTransform input (st, out))) input) /\
  (forall st, same_size (output_after (MinMaxScaler.Transform input (st, out))) input) /\
  (forall st, same_size (output_after (MinMaxScaler.InverseTransform input (st, out))) input).
Proof.
  repeat split.
  - destruct (MeanNormalizationFacts.MN_Transform_run input st out)
      as (out' & -> & Hsz & _). apply Hsz.
  - destruct (MeanNormalizationFacts.MN_Transform_run input st out)
      as (out' & -> & Hsz & _). apply Hsz.
  - apply (MN_inverse_keeps (fun w => n_rows (snd w) = n_rows input)); auto.
  - apply (MN_inverse_keeps (fun w => n_cols (snd w) = n_cols input)); auto.
  - destruct (MinMaxScalerFacts.MM_Transform_run input st out)
      as (out' & -> & Hsz & _). apply Hsz.
  - destruct (MinMaxScalerFacts.MM_Transform_run input st out)
      as (out' & -> & Hsz & _). apply Hsz.
  - apply (MM_inverse_keeps (fun w => n_rows (snd w) = n_rows input)); auto.
  - apply (MM_inverse_keeps (fun w => n_cols (snd w) = n_cols input)); auto.
Qed.

(** C10.  [InverseTransform] of either class leaves every field of the
    object as it was (itemMean, itemMin, itemMax and scale; for
    MinMaxScaler also scalemin and scalemax), whether or not the call
    completes, so every accessor returns after the call what it returned
    before. *)
Theorem inverse_keeps_fields (input out : Mat) :
  (forall st : MeanNormalization.t,
      fields_after (MeanNormalization.InverseTransform input (st, out)) = st) /\
  (forall st : MinMaxScaler.t,
      fields_after (MinMaxScaler.InverseTransform input (st, out)) = st).
Proof.
  split; intros st.
  - apply (MN_inverse_keeps (fun w => fst w = st)); auto.
  - apply (MM_inverse_keeps (fun w => fst w = st)); auto.
Qed.

(** ** Accessors *)

(** C9.  Immediately after [Transform], whatever the object held before,
    the vectors the accessors return are the statistics of this call's
    input, and the output of this call is the one computed from them:
    for MeanNormalization (input(i, j) - ItemMean(i)) / Scale(i), for
    MinMaxScaler Scale(i) * input(i, j) + ScaleMin - ItemMin(i) * Scale(i). *)
Theorem accessors_after_transform (input out : Mat) :
  (forall st : MeanNormalization.t,
      let r := MeanNormalization.Transform input (st, out) in
      let s' := fields_after r in
      MeanNormalization.ItemMean s' = arma_mean input /\
      MeanNormalization.ItemMin s' = arma_min input /\
      MeanNormalization.ItemMax s' = arma_max input /\
      MeanNormalization.Scale s'
      = map nonzero_or_one
            (vec_sub (MeanNormalization.ItemMax s') (MeanNormalization.ItemMin s')) /\
      forall i j, (i < n_rows input)%nat -> (j < n_cols input)%nat ->
        exists m sc,
          MeanNormalization.ItemMean s' !! i = Some m /\
          MeanNormalization.Scale s' !! i = Some sc /\
          elem (output_after r) i j = ndiv (nsub (elem input i j) m) sc) /\
  (forall st : MinMaxScaler.t,
      let r := MinMaxScaler.Transform input (st, out) in
      let s' := fields_after r in
      MinMaxScaler.ItemMin s' = arma_min input /\
      MinMaxScaler.ItemMax s' = arma_max input /\
      MinMaxScaler.ScaleMin s' = MinMaxScaler.ScaleMin st /\
      MinMaxScaler.ScaleMax s' = MinMaxScaler.ScaleMax st /\
      MinMaxScaler.Scale s'
      = map nonzero_or_one
            (scalar_div_vec
               (nsub (MinMaxScaler.ScaleMax s') (MinMaxScaler.ScaleMin s'))
               (vec_sub (MinMaxScaler.ItemMax s') (MinMaxScaler.ItemMin s'))) /\
      forall i j, (i < n_rows input)%nat -> (j < n_cols input)%nat ->
        exists mn sc,
          MinMaxScaler.ItemMin s' !! i = Some mn /\
          MinMaxScaler.Scale s' !! i = Some sc /\
          elem (output_after r) i j
          = nsub (nadd (nmul sc (elem input i j)) (MinMaxScaler.ScaleMin s'))
                 (nmul mn sc)).
Proof.
  split; intros st r s'.
  - destruct (MeanNormalizationFacts.MN_Transform_run input st out)
      as (out' & Hrun & Hsz & Hel).
    destruct (run_Ok r _ _ Hrun) as (_ & Hf & Ho).
    subst s'. rewrite Hf, Ho. repeat split.
    intros i j Hi Hj. assert (Hpos : (0 < n_cols input)%nat) by lia.
    exists (row_mean input i), (MeanNormalizationFit.scale_of input i).
    split; [apply arma_mean_lookup; assumption |].
    split; [apply MeanNormalizationFacts.MN_fitted_scale_lookup; assumption |].
    apply Hel; assumption.
  - destruct (MinMaxScalerFacts.MM_Transform_run input st out)
      as (out' & Hrun & Hsz & Hel).
    destruct (run_Ok r _ _ Hrun) as (_ & Hf & Ho).
    subst s'. rewrite Hf, Ho. repeat split.
    intros i j Hi Hj. assert (Hpos : (0 < n_cols input)%nat) by lia.
    exists (row_min input i),
      (MinMaxScalerFit.scale_of (MinMaxScaler.scalemin st)
                                  (MinMaxScaler.scalemax st) input i).
    split; [apply arma_min_lookup; assumption |].
    split; [apply MinMaxScalerFacts.MM_fitted_scale_lookup; assumption |].
    apply Hel; assumption.
Qed.

Lemma accessors_after_transform_witness :
  let r := MinMaxScaler.Transform row_2_4_6 (MinMaxScaler.default, no_output) in
  exists mn sc,
    MinMaxScaler.ItemMin (fields_after r) !! 0%nat = Some mn /\
    MinMaxScaler.Scale (fields_after r) !! 0%nat = Some sc /\
    elem (output_after r) 0 2 = nsub (nadd (nmul sc (Fin 6)) (Fin 0)) (nmul mn sc).
Proof.
  destruct (proj2 (accessors_after_transform row_2_4_6 no_output) MinMaxScaler.default)
    as (_ & _ & _ & _ & _ & H).
  apply (H 0%nat 2%nat); simpl; lia.
Defined.

(** ** The scale vector after [Transform] *)

(** In both classes the scale vector [Transform] leaves holds no entry
    that compares equal to zero. *)
Lemma scale_no_zero (input out : Mat) :
  (forall st,
      Forall (fun v => neqb v (Fin 0) = false)
             (MeanNormalization.Scale
                (fields_after (MeanNormalization.Transform input (st, out))))) /\
  (forall st,
      Forall (fun v => neqb v (Fin 0) = false)
             (MinMaxScaler.Scale
                (fields_after (MinMaxScaler.Transform input (st, out))))).
Proof.
  split; intros st.
  - destruct (MeanNormalizationFacts.MN_Transform_run input st out)
      as (out' & -> & _). simpl.
    apply Forall_forall. intros v Hv. apply list_elem_of_In, in_map_iff in Hv.
    destruct Hv as (x & <- & _). apply nonzero_or_one_nonzero.
  - destruct (MinMaxScalerFacts.MM_Transform_run input st out)
      as (out' & -> & _). simpl.
    apply Forall_forall. intros v Hv. apply list_elem_of_In, in_map_iff in Hv.
    destruct Hv as (x & <- & _). apply nonzero_or_one_nonzero.
Qed.

(** C6, at the input on which the code departs from it.  Fitted with the
    default range on the constant row [5, 5, 5], MinMaxScaler holds
    min = max = 5 for the feature and the scale entry +inf: the quotient
    1 / (5 - 5) is not [== 0], so the zero-handling loop leaves it, and it
    is not 1. *)
Theorem minmax_zero_range_scale_not_one (out : Mat) :
  let s' := fields_after (MinMaxScaler.Transform row_5_5_5 (MinMaxScaler.default, out)) in
  MinMaxScaler.ItemMin s' = [Fin 5] /\
  MinMaxScaler.ItemMax s' = [Fin 5] /\
  MinMaxScaler.Scale s' = [PInf] /\
  neqb PInf (Fin 1) = false.
Proof. vm_compute. repeat split. Qed.

(** C5, at the input on which the code departs from it.  Fitted with the
    default range on the constant row [5, 5, 5], [MinMaxScaler::Transform]
    completes with the scale entry +inf and writes NaN (inf * 5 - 5 * inf)
    in every position of the row, where the specification has 0. *)
Theorem minmax_constant_row_output (out : Mat) :
  let r := MinMaxScaler.Transform row_5_5_5 (MinMaxScaler.default, out) in
  completed r = true /\
  MinMaxScaler.Scale (fields_after r) = [PInf] /\
  row (output_after r) 0 = [NaN; NaN; NaN] /\
  vec_eqb (row (output_after r) 0) [Fin 0; Fin 0; Fin 0] = false.
Proof. vm_compute. repeat split. Qed.

(** ** Finite inputs: the values behind the formulas *)









(** ** Centering on the exact numbers *)


(** ** Round trip on the exact numbers *)


(** ** The range of MinMaxScaler on the exact numbers *)


(** ** Constant rows under MeanNormalization *)

Lemma qsum_const (x : nat -> Q) (c : Q) js :
  (forall j, In j js -> x j == c) ->
  forall a, qsum x js a == a + inject_Z (Z.of_nat (length js)) * c.
Proof.
  induction js as [| j0 js IH]; intros Hx a.
  - simpl. ring.
  - change (qsum x (j0 :: js) a) with (qsum x js (a + x j0)).
    change (length (j0 :: js)) with (Datatypes.S (length js)).
    rewrite IH by (intros j Hj; apply Hx; right; exact Hj).
    rewrite (Hx j0 (or_introl eq_refl)), inject_Z_succ. ring.
Qed.

(** The part of C5 about MeanNormalization: on a row of equal finite
    entries the scale entry is forced to 1 and the output row is zero. *)
Lemma mean_constant_row (st : MeanNormalization.t) (M out : Mat) (i : nat) :
  (0 < n_cols M)%nat -> (i < n_rows M)%nat ->
  finite_row M i = true -> constant_row M i = true ->
  let r := MeanNormalization.Transform M (st, out) in
  completed r = true /\
  MeanNormalization.Scale (fields_after r) !! i = Some (Fin 1) /\
  forall j, (j < n_cols M)%nat -> neqb (elem (output_after r) i j) (Fin 0) = true.
Proof.
  intros Hcols Hi Hrow Hconst r.
  destruct (MeanNormalizationFacts.MN_Transform_run M st out)
    as (out' & Hrun & [Hr Hc] & Hel).
  destruct (run_Ok r _ _ Hrun) as (Hdone & Hf & Ho). rewrite Hf, Ho.
  set (c := to_Q (elem M i 0%nat)).
  assert (Hx : forall j, (j < n_cols M)%nat -> to_Q (elem M i j) == c).
  { intros j Hj.
    pose proof (forallb_seq_lt _ _ j Hconst Hj) as E. simpl in E.
    rewrite (is_fin_to_Q _ (finite_row_elem M i j Hrow Hj)) in E.
    rewrite (is_fin_to_Q _ (finite_row_elem M i 0%nat Hrow Hcols)) in E.
    apply neqb_Fin in E. exact E. }
  assert (Hscale : MeanNormalizationFit.scale_of M i = Fin 1).
  { destruct (row_min_spec M i Hcols Hrow) as ((j1 & Hj1 & Hat1) & Hfin1 & _).
    destruct (row_max_spec M i Hcols Hrow) as ((j2 & Hj2 & Hat2) & Hfin2 & _).
    unfold MeanNormalizationFit.scale_of.
    rewrite (is_fin_to_Q _ Hfin1), (is_fin_to_Q _ Hfin2), nsub_Fin.
    apply nonzero_or_one_zero. rewrite Hat1, Hat2, (Hx j1 Hj1), (Hx j2 Hj2). ring. }
  split; [exact Hdone |]. split.
  - rewrite <- Hscale. apply MeanNormalizationFacts.MN_fitted_scale_lookup; assumption.
  - intros j Hj. rewrite (Hel i j Hi Hj), Hscale.
    rewrite (row_mean_fin M i Hcols Hrow).
    rewrite (is_fin_to_Q _ (finite_row_elem M i j Hrow Hj)) at 1.
    rewrite nsub_Fin, ndiv_Fin by lra.
    apply neqb_Fin. rewrite (Hx j Hj).
    rewrite (qsum_const (fun j => to_Q (elem M i j)) c (seq 0 (n_cols M)))
      by (intros j' Hj'; apply in_seq in Hj'; apply Hx; lia).
    rewrite length_seq. field. apply of_nat_nonzero, Hcols.
Qed.

(** * Further properties of the two classes *)

(** ** Completed runs, read backwards *)

Section Completed.
Context {S : Type}.
Implicit Types (w : world S) (P : world S -> Prop).

Lemma completed_bind {A B} (m : M S A) (k : A -> M S B) w :
  completed (bind m k w) = true ->
  exists a w', m w = (Ok a, w') /\ completed (k a w') = true.
Proof.
  unfold bind. destruct (m w) as [[a |] w']; intros H; [eauto | discriminate H].
Qed.

Lemma mat_at_Ok m i j w x w' :
  mat_at m i j w = (Ok x, w') -> w' = w /\ x = elem m i j.
Proof.
  unfold mat_at. destruct (in_bounds m i j); intros H; inversion H; auto.
Qed.

Lemma vec_at_Ok (f : S -> colvec) i w x w' :
  vec_at f i w = (Ok x, w') -> w' = w /\ f (fst w) !! i = Some x.
Proof.
  unfold vec_at. destruct (f (fst w) !! i); intros H; inversion H; auto.
Qed.

Lemma gets_Ok {A} (f : S -> A) w x w' :
  gets f w = (Ok x, w') -> w' = w.
Proof. unfold gets. intros H; inversion H; auto. Qed.

Lemma output_at_Ok i j w x w' :
  output_at i j w = (Ok x, w') -> w' = w.
Proof.
  unfold output_at. destruct (in_bounds (snd w) i j); intros H; inversion H; auto.
Qed.

Lemma output_put_Ok i j v w (u : unit) w' :
  output_put i j v w = (Ok u, w') -> fst w' = fst w.
Proof.
  unfold output_put. destruct (in_bounds (snd w) i j); intros H; inversion H; auto.
Qed.

(** When a loop completes, every iteration ran to completion, from a state
    in which every property the body keeps still held. *)
Lemma for_from_completed P body :
  (forall k, keeps P (body k)) ->
  forall n from w,
    P w -> completed (for_from from n body w) = true ->
    forall k, (from <= k < from + n)%nat ->
              exists w', P w' /\ completed (body k w') = true.
Proof.
  intros Hkeeps. induction n as [| n IH]; intros from w HP Hdone k Hk; [lia |].
  simpl in Hdone. apply completed_bind in Hdone.
  destruct Hdone as ([] & w1 & Hrun & Hrest).
  destruct (Nat.eq_dec k from) as [-> | Hne].
  - exists w. split; [exact HP |]. rewrite Hrun. reflexivity.
  - apply (IH (Datatypes.S from) w1); [| exact Hrest | lia].
    specialize (Hkeeps from w HP). rewrite Hrun in Hkeeps. exact Hkeeps.
Qed.

Lemma for_completed P body n w k :
  completed (for_ n body w) = true -> (k < n)%nat -> P w ->
  (forall k, keeps P (body k)) ->
  exists w', P w' /\ completed (body k w') = true.
Proof.
  intros Hdone Hk HP Hkeeps.
  apply (for_from_completed P body Hkeeps n 0%nat w HP Hdone). lia.
Qed.

End Completed.

Lemma entry_lookup (v : colvec) i : (i < length v)%nat -> v !! i = Some (entry v i).
Proof.
  intros Hi. unfold entry.
  destruct (lookup_lt_is_Some_2 v i Hi) as [x ->]. reflexivity.
Qed.

(** ** [InverseTransform] on an arbitrary object *)

Lemma arma_mean_length m : (0 < n_cols m)%nat -> length (arma_mean m) = n_rows m.
Proof.
  intros Hc. unfold arma_mean. destruct (Nat.eqb_spec (n_cols m) 0); [lia |].
  rewrite length_map, length_seq. reflexivity.
Qed.

Lemma arma_min_length m : (0 < n_cols m)%nat -> length (arma_min m) = n_rows m.
Proof.
  intros Hc. unfold arma_min. destruct (Nat.eqb_spec (n_cols m) 0); [lia |].
  rewrite length_map, length_seq. reflexivity.
Qed.

Lemma arma_max_length m : (0 < n_cols m)%nat -> length (arma_max m) = n_rows m.
Proof.
  intros Hc. unfold arma_max. destruct (Nat.eqb_spec (n_cols m) 0); [lia |].
  rewrite length_map, length_seq. reflexivity.
Qed.

Lemma range_length m :
  (0 < n_cols m)%nat -> length (vec_sub (arma_max m) (arma_min m)) = n_rows m.
Proof.
  intros Hc. unfold vec_sub.
  rewrite length_zip_with, arma_max_length, arma_min_length by exact Hc. lia.
Qed.

(** MeanNormalization: when the statistic vectors reach every row of the
    input, the run completes, keeps the fields and writes
    [input(i, j) * scale(i) + itemMean(i)]. *)
Lemma MN_inverse_run_any (st : MeanNormalization.t) input out :
  ((0 < n_cols input)%nat ->
   (n_rows input <= length (MeanNormalization.scale st))%nat /\
   (n_rows input <= length (MeanNormalization.itemMean st))%nat) ->
  exists out',
    MeanNormalization.InverseTransform input (st, out) = (Ok tt, (st, out')) /\
    same_size out' input /\
    forall i j, (i < n_rows input)%nat -> (j < n_cols input)%nat ->
      elem out' i j
      = nadd (nmul (elem input i j) (entry (MeanNormalization.scale st) i))
             (entry (MeanNormalization.itemMean st) i).
Proof.
  intros Hlen.
  set (F := fun i j =>
    nadd (nmul (elem input i j) (entry (MeanNormalization.scale st) i))
         (entry (MeanNormalization.itemMean st) i)).
  enough (Hwp : wp (MeanNormalization.InverseTransform input)
    (fun _ w' => fst w' = st /\ same_size (snd w') input /\
       forall i j, (i < n_rows input)%nat -> (j < n_cols input)%nat ->
         elem (snd w') i j = F i j)
    (st, out)).
  { destruct Hwp as ([] & [st' out'] & Hrun & Hst & Hrest). simpl in *. subst st'.
    exists out'. split; [exact Hrun | exact Hrest]. }
  unfold MeanNormalization.InverseTransform.
  apply wp_bind, wp_output_copy_size.
  apply (wp_elementwise F).
  - intros i j o Hi Hj [Hr Hc].
    destruct Hlen as [Hs Hm]; [lia |].
    apply wp_bind, wp_mat_at; [exact Hi | exact Hj |].
    apply wp_bind, (wp_vec_at _ _ (entry (MeanNormalization.scale st) i));
      [apply entry_lookup; lia |].
    apply wp_bind, wp_output_put; [lia | lia |].
    apply wp_bind, wp_output_at; [simpl; lia | simpl; lia |].
    apply wp_bind, (wp_vec_at _ _ (entry (MeanNormalization.itemMean st) i));
      [apply entry_lookup; lia |].
    apply wp_output_put; [simpl; lia | simpl; lia |].
    unfold writes_cell. cbn [fst snd]. rewrite !elem_update_same.
    split; [reflexivity |]. split; [split; reflexivity |].
    split; [reflexivity |].
    intros i' j' Hne. rewrite !elem_update_other by exact Hne. reflexivity.
  - apply same_size_copy_size.
  - intros out' Hsz Hall. simpl. auto.
Qed.

(** MeanNormalization: a run that completes on an input with a column has
    read [scale(i)] and [itemMean(i)] for every row [i] of the input. *)
Lemma MN_inverse_completed_reads (st : MeanNormalization.t) input out i :
  completed (MeanNormalization.InverseTransform input (st, out)) = true ->
  (0 < n_cols input)%nat -> (i < n_rows input)%nat ->
  (i < length (MeanNormalization.scale st))%nat /\
  (i < length (MeanNormalization.itemMean st))%nat.
Proof.
  intros Hdone Hc Hi.
  unfold MeanNormalization.InverseTransform in Hdone.
  apply completed_bind in Hdone. destruct Hdone as ([] & w0 & Hcopy & Hdone).
  assert (H0 : fst w0 = st) by (inversion Hcopy; reflexivity).
  destruct (for_completed (fun w => fst w = st) _ _ _ i Hdone Hi H0)
    as (w1 & H1 & Hrow); [intros ?; keeps_steps; auto |].
  destruct (for_completed (fun w => fst w = st) _ _ _ 0%nat Hrow Hc H1)
    as (w2 & H2 & Hcell); [intros ?; keeps_steps; auto |].
  apply completed_bind in Hcell. destruct Hcell as (x & w3 & Hx & Hcell).
  apply mat_at_Ok in Hx. destruct Hx as [-> _].
  apply completed_bind in Hcell. destruct Hcell as (sc & w4 & Hsc & Hcell).
  apply vec_at_Ok in Hsc. destruct Hsc as [-> Hsc].
  apply completed_bind in Hcell. destruct Hcell as ([] & w5 & Hput & Hcell).
  apply output_put_Ok in Hput.
  apply completed_bind in Hcell. destruct Hcell as (o & w6 & Ho & Hcell).
  apply output_at_Ok in Ho. subst w6.
  apply completed_bind in Hcell. destruct Hcell as (m & w7 & Hm & _).
  apply vec_at_Ok in Hm. destruct Hm as [_ Hm].
  rewrite Hput, H2 in Hm. rewrite H2 in Hsc.
  split; eapply lookup_lt_Some; eassumption.
Qed.

(** MinMaxScaler: when the statistic vectors reach every row of the input,
    the run completes, keeps the fields and writes
    [(input(i, j) - scalemin + itemMin(i) * scale(i)) / scale(i)]. *)
Lemma MM_inverse_run_any (st : MinMaxScaler.t) input out :
  ((0 < n_cols input)%nat ->
   (n_rows input <= length (MinMaxScaler.itemMin st))%nat /\
   (n_rows input <= length (MinMaxScaler.scale st))%nat) ->
  exists out',
    MinMaxScaler.InverseTransform input (st, out) = (Ok tt, (st, out')) /\
    same_size out' input /\
    forall i j, (i < n_rows input)%nat -> (j < n_cols input)%nat ->
      elem out' i j
      = ndiv (nadd (nsub (elem input i j) (MinMaxScaler.scalemin st))
                   (nmul (entry (MinMaxScaler.itemMin st) i)
                         (entry (MinMaxScaler.scale st) i)))
             (entry (MinMaxScaler.scale st) i).
Proof.
  intros Hlen.
  set (F := fun i j =>
    ndiv (nadd (nsub (elem input i j) (MinMaxScaler.scalemin st))
               (nmul (entry (MinMaxScaler.itemMin st) i)
                     (entry (MinMaxScaler.scale st) i)))
         (entry (MinMaxScaler.scale st) i)).
  enough (Hwp : wp (MinMaxScaler.InverseTransform input)
    (fun _ w' => fst w' = st /\ same_size (snd w') input /\
       forall i j, (i < n_rows input)%nat -> (j < n_cols input)%nat ->
         elem (snd w') i j = F i j)
    (st, out)).
  { destruct Hwp as ([] & [st' out'] & Hrun & Hst & Hrest). simpl in *. subst st'.
    exists out'. split; [exact Hrun | exact Hrest]. }
  unfold MinMaxScaler.InverseTransform.
  apply wp_bind, wp_output_copy_size.
  apply (wp_elementwise F).
  - intros i j o Hi Hj [Hr Hc].
    destruct Hlen as [Hm Hs]; [lia |].
    apply wp_bind, wp_mat_at; [exact Hi | exact Hj |].
    apply wp_bind, wp_gets.
    apply wp_bind, (wp_vec_at _ _ (entry (MinMaxScaler.itemMin st) i));
      [apply entry_lookup; lia |].
    apply wp_bind, (wp_vec_at _ _ (entry (MinMaxScaler.scale st) i));
      [apply entry_lookup; lia |].
    apply wp_bind, (wp_vec_at _ _ (entry (MinMaxScaler.scale st) i));
      [apply entry_lookup; lia |].
    apply wp_output_put; [lia | lia |].
    unfold writes_cell. cbn [fst snd]. rewrite !elem_update_same.
    split; [reflexivity |]. split; [split; reflexivity |].
    split; [reflexivity |].
    intros i' j' Hne. rewrite !elem_update_other by exact Hne. reflexivity.
  - apply same_size_copy_size.
  - intros out' Hsz Hall. simpl. auto.
Qed.

(** MinMaxScaler: a run that completes on an input with a column has read
    [itemMin(i)] and [scale(i)] for every row [i] of the input. *)
Lemma MM_inverse_completed_reads (st : MinMaxScaler.t) input out i :
  completed (MinMaxScaler.InverseTransform input (st, out)) = true ->
  (0 < n_cols input)%nat -> (i < n_rows input)%nat ->
  (i < length (MinMaxScaler.itemMin st))%nat /\
  (i < length (MinMaxScaler.scale st))%nat.
Proof.
  intros Hdone Hc Hi.
  unfold MinMaxScaler.InverseTransform in Hdone.
  apply completed_bind in Hdone. destruct Hdone as ([] & w0 & Hcopy & Hdone).
  assert (H0 : fst w0 = st) by (inversion Hcopy; reflexivity).
  destruct (for_completed (fun w => fst w = st) _ _ _ i Hdone Hi H0)
    as (w1 & H1 & Hrow); [intros ?; keeps_steps; auto |].
  destruct (for_completed (fun w => fst w = st) _ _ _ 0%nat Hrow Hc H1)
    as (w2 & H2 & Hcell); [intros ?; keeps_steps; auto |].
  apply completed_bind in Hcell. destruct Hcell as (x & w3 & Hx & Hcell).
  apply mat_at_Ok in Hx. destruct Hx as [-> _].
  apply completed_bind in Hcell. destruct Hcell as (lo & w4 & Hlo & Hcell).
  apply gets_Ok in Hlo. subst w4.
  apply completed_bind in Hcell. destruct Hcell as (mn & w5 & Hmn & Hcell).
  apply vec_at_Ok in Hmn. destruct Hmn as [-> Hmn].
  apply completed_bind in Hcell. destruct Hcell as (sc & w6 & Hsc & _).
  apply vec_at_Ok in Hsc. destruct Hsc as [_ Hsc].
  rewrite H2 in Hmn, Hsc.
  split; eapply lookup_lt_Some; eassumption.
Qed.

(** X1.  [MeanNormalization::InverseTransform], on an object in any state
    whose Scale and ItemMean vectors have an entry for every row of the
    input: the call completes and writes
    output(i, j) = input(i, j) * Scale(i) + ItemMean(i). *)
Theorem mean_inverse_formula (st : MeanNormalization.t) (input out : Mat)
        (Hs : (n_rows input <= length (MeanNormalization.Scale st))%nat)
        (Hm : (n_rows input <= length (MeanNormalization.ItemMean st))%nat) :
  let r := MeanNormalization.InverseTransform input (st, out) in
  completed r = true /\
  forall i j, (i < n_rows input)%nat -> (j < n_cols input)%nat ->
    exists sc m,
      MeanNormalization.Scale st !! i = Some sc /\
      MeanNormalization.ItemMean st !! i = Some m /\
      elem (output_after r) i j = nadd (nmul (elem input i j) sc) m.
Proof.
  intros r.
  destruct (MN_inverse_run_any st input out (fun _ => conj Hs Hm))
    as (out' & Hrun & _ & Hel).
  destruct (run_Ok r _ _ Hrun) as (Hdone & _ & Ho). rewrite Ho.
  split; [exact Hdone |]. intros i j Hi Hj.
  exists (entry (MeanNormalization.scale st) i),
    (entry (MeanNormalization.itemMean st) i).
  split; [apply entry_lookup; unfold MeanNormalization.Scale in Hs; lia |].
  split; [apply entry_lookup; unfold MeanNormalization.ItemMean in Hm; lia |].
  apply Hel; assumption.
Qed.

Lemma mean_inverse_formula_witness :
  completed
    (MeanNormalization.InverseTransform
       row_2_4_6
       (MeanNormalizationFit.fitted row_2_4_6, no_output)) = true.
Proof.
  apply (mean_inverse_formula (MeanNormalizationFit.fitted row_2_4_6)
                              row_2_4_6 no_output); simpl; lia.
Defined.

(** X2.  [MinMaxScaler::InverseTransform], on an object in any state whose
    ItemMin and Scale vectors have an entry for every row of the input:
    the call completes and writes
    output(i, j) = (input(i, j) - ScaleMin + ItemMin(i) * Scale(i)) / Scale(i). *)
Theorem minmax_inverse_formula (st : MinMaxScaler.t) (input out : Mat)
        (Hm : (n_rows input <= length (MinMaxScaler.ItemMin st))%nat)
        (Hs : (n_rows input <= length (MinMaxScaler.Scale st))%nat) :
  let r := MinMaxScaler.InverseTransform input (st, out) in
  completed r = true /\
  forall i j, (i < n_rows input)%nat -> (j < n_cols input)%nat ->
    exists mn sc,
      MinMaxScaler.ItemMin st !! i = Some mn /\
      MinMaxScaler.Scale st !! i = Some sc /\
      elem (output_after r) i j
      = ndiv (nadd (nsub (elem input i j) (MinMaxScaler.ScaleMin st)) (nmul mn sc)) sc.
Proof.
  intros r.
  destruct (MM_inverse_run_any st input out (fun _ => conj Hm Hs))
    as (out' & Hrun & _ & Hel).
  destruct (run_Ok r _ _ Hrun) as (Hdone & _ & Ho). rewrite Ho.
  split; [exact Hdone |]. intros i j Hi Hj.
  exists (entry (MinMaxScaler.itemMin st) i), (entry (MinMaxScaler.scale st) i).
  split; [apply entry_lookup; unfold MinMaxScaler.ItemMin in Hm; lia |].
  split; [apply entry_lookup; unfold MinMaxScaler.Scale in Hs; lia |].
  apply Hel; assumption.
Qed.

Lemma minmax_inverse_formula_witness :
  completed
    (MinMaxScaler.InverseTransform
       row_2_4_6
       (MinMaxScalerFit.fitted MinMaxScaler.default row_2_4_6, no_output)) = true.
Proof.
  apply (minmax_inverse_formula (MinMaxScalerFit.fitted MinMaxScaler.default row_2_4_6)
                                row_2_4_6 no_output); simpl; lia.
Defined.

(** X3.  [MeanNormalization::InverseTransform] makes no element access out
    of bounds exactly when the input has no column or has no more rows than
    both the scale and the itemMean vector hold entries; in particular a
    never-fitted object completes only on an input without rows or without
    columns. *)
Theorem mean_inverse_completes_iff (st : MeanNormalization.t) (input out : Mat) :
  completed (MeanNormalization.InverseTransform input (st, out)) = true <->
  (n_cols input = 0%nat \/
   ((n_rows input <= length (MeanNormalization.scale st))%nat /\
    (n_rows input <= length (MeanNormalization.itemMean st))%nat)).
Proof.
  split.
  - intros Hdone.
    destruct (Nat.eq_dec (n_cols input) 0%nat) as [Hz | Hnz]; [left; exact Hz | right].
    destruct (n_rows input) as [| k] eqn:Hrows; [lia |].
    destruct (MN_inverse_completed_reads st input out k Hdone); lia.
  - intros Hlen.
    destruct (MN_inverse_run_any st input out) as (out' & Hrun & _).
    + intros Hc. destruct Hlen as [Hz | Hlen]; [lia | exact Hlen].
    + rewrite Hrun. reflexivity.
Qed.

(** X4.  [MinMaxScaler::InverseTransform] makes no element access out of
    bounds exactly when the input has no column or has no more rows than
    both the itemMin and the scale vector hold entries. *)
Theorem minmax_inverse_completes_iff (st : MinMaxScaler.t) (input out : Mat) :
  completed (MinMaxScaler.InverseTransform input (st, out)) = true <->
  (n_cols input = 0%nat \/
   ((n_rows input <= length (MinMaxScaler.itemMin st))%nat /\
    (n_rows input <= length (MinMaxScaler.scale st))%nat)).
Proof.
  split.
  - intros Hdone.
    destruct (Nat.eq_dec (n_cols input) 0%nat) as [Hz | Hnz]; [left; exact Hz | right].
    destruct (n_rows input) as [| k] eqn:Hrows; [lia |].
    destruct (MM_inverse_completed_reads st input out k Hdone); lia.
  - intros Hlen.
    destruct (MM_inverse_run_any st input out) as (out' & Hrun & _).
    + intros Hc. destruct Hlen as [Hz | Hlen]; [lia | exact Hlen].
    + rewrite Hrun. reflexivity.
Qed.

(** X5.  After [Transform] on a matrix [M] with at least one column, the
    same object's [InverseTransform] completes on an input exactly when
    the input has no column or no more rows than [M] (the number of its
    columns is free), in both classes. *)
Theorem inverse_after_transform_completes_iff (M out input back : Mat)
        (Hcols : (0 < n_cols M)%nat) :
  (forall st : MeanNormalization.t,
      completed (MeanNormalization.InverseTransform
                   input
                   (fields_after (MeanNormalization.Transform M (st, out)), back))
      = true
      <-> (n_cols input = 0%nat \/ (n_rows input <= n_rows M)%nat)) /\
  (forall st : MinMaxScaler.t,
      completed (MinMaxScaler.InverseTransform
                   input
                   (fields_after (MinMaxScaler.Transform M (st, out)), back))
      = true
      <-> (n_cols input = 0%nat \/ (n_rows input <= n_rows M)%nat)).
Proof.
  split; intros st.
  - destruct (MeanNormalizationFacts.MN_Transform_run M st out) as (out' & -> & _).
    unfold fields_after. cbn [fst snd].
    assert (Hls : length (MeanNormalization.scale (MeanNormalizationFit.fitted M))
                  = n_rows M)
      by (simpl; rewrite length_map; apply range_length, Hcols).
    assert (Hlm : length (MeanNormalization.itemMean (MeanNormalizationFit.fitted M))
                  = n_rows M)
      by (apply arma_mean_length, Hcols).
    split.
    + intros Hdone.
      destruct (Nat.eq_dec (n_cols input) 0%nat) as [Hz | Hnz]; [left; exact Hz | right].
      destruct (n_rows input) as [| k] eqn:Hrows; [lia |].
      destruct (MN_inverse_completed_reads _ input back k Hdone); lia.
    + intros Hlen.
      destruct (MN_inverse_run_any (MeanNormalizationFit.fitted M) input back)
        as (back' & Hrun & _); [| rewrite Hrun; reflexivity].
      intros Hc. rewrite Hls, Hlm. lia.
  - destruct (MinMaxScalerFacts.MM_Transform_run M st out) as (out' & -> & _).
    unfold fields_after. cbn [fst snd].
    assert (Hls : length (MinMaxScaler.scale (MinMaxScalerFit.fitted st M)) = n_rows M)
      by (simpl; unfold scalar_div_vec; rewrite !length_map; apply range_length, Hcols).
    assert (Hlm : length (MinMaxScaler.itemMin (MinMaxScalerFit.fitted st M)) = n_rows M)
      by (apply arma_min_length, Hcols).
    split.
    + intros Hdone.
      destruct (Nat.eq_dec (n_cols input) 0%nat) as [Hz | Hnz]; [left; exact Hz | right].
      destruct (n_rows input) as [| k] eqn:Hrows; [lia |].
      destruct (MM_inverse_completed_reads _ input back k Hdone); lia.
    + intros Hlen.
      destruct (MM_inverse_run_any (MinMaxScalerFit.fitted st M) input back)
        as (back' & Hrun & _); [| rewrite Hrun; reflexivity].
      intros Hc. rewrite Hls, Hlm. lia.
Qed.

Lemma inverse_after_transform_completes_iff_witness :
  completed (MinMaxScaler.InverseTransform
               row_5_5_5
               (fields_after (MinMaxScaler.Transform row_2_4_6
                                                     (MinMaxScaler.default, no_output)),
                no_output)) = true.
Proof.
  apply (proj2 (inverse_after_transform_completes_iff
                  row_2_4_6 no_output row_5_5_5 no_output
                  ltac:(simpl; lia))
               MinMaxScaler.default).
  right. simpl. lia.
Defined.

(** ** Statistics of a finite row *)






(** ** MeanNormalization on every finite matrix *)





(** ** MinMaxScaler on every finite range *)







(** X14.  On a row of equal finite entries [MinMaxScaler::Transform] with
    any finite range divides by the zero range of the row: the scale entry
    it stores is an infinity or NaN (never the 1 of the zero handling), and
    every entry it writes in that row is NaN. *)
Theorem minmax_constant_row_nan (st : MinMaxScaler.t) (M out : Mat) (i j : nat)
        (Hcols : (0 < n_cols M)%nat)
        (Hi : (i < n_rows M)%nat) (Hj : (j < n_cols M)%nat)
        (Hrow : finite_row M i = true) (Hconst : constant_row M i = true)
        (Hlo : is_fin (MinMaxScaler.scalemin st) = true)
        (Hhi : is_fin (MinMaxScaler.scalemax st) = true) :
  let r := MinMaxScaler.Transform M (st, out) in
  (exists sc, MinMaxScaler.Scale (fields_after r) !! i = Some sc /\
              is_fin sc = false) /\
  elem (output_after r) i j = NaN.
Proof.
  intros r.
  destruct (MinMaxScalerFacts.MM_Transform_run M st out)
    as (out' & Hrun & _ & Hel).
  destruct (run_Ok r _ _ Hrun) as (_ & Hf & Ho). rewrite Hf, Ho.
  pose proof (MinMaxScalerFacts.MM_fitted_scale_lookup st M i Hcols Hi) as Hlook.
  rewrite (Hel i j Hi Hj).
  destruct (MinMaxScaler.scalemin st) as [lo | | |]; try discriminate Hlo.
  destruct (MinMaxScaler.scalemax st) as [hi | | |]; try discriminate Hhi.
  set (c := to_Q (elem M i 0%nat)).
  assert (Hx : forall j, (j < n_cols M)%nat -> to_Q (elem M i j) == c).
  { intros j' Hj'.
    pose proof (forallb_seq_lt _ _ j' Hconst Hj') as E. simpl in E.
    rewrite (is_fin_to_Q _ (finite_row_elem M i j' Hrow Hj')) in E.
    rewrite (is_fin_to_Q _ (finite_row_elem M i 0%nat Hrow Hcols)) in E.
    apply neqb_Fin in E. exact E. }
  destruct (row_min_spec M i Hcols Hrow) as ((j1 & Hj1 & Hat1) & Hfin1 & _).
  destruct (row_max_spec M i Hcols Hrow) as ((j2 & Hj2 & Hat2) & Hfin2 & _).
  assert (Hmn : to_Q (row_min M i) == c) by (rewrite Hat1; apply Hx, Hj1).
  assert (Hmx : to_Q (row_max M i) == c) by (rewrite Hat2; apply Hx, Hj2).
  assert (Hsc : MinMaxScalerFit.scale_of (Fin lo) (Fin hi) M i
                = inf_of_sign (hi - lo ?= 0)).
  { unfold MinMaxScalerFit.scale_of.
    rewrite (is_fin_to_Q _ Hfin1), (is_fin_to_Q _ Hfin2), !nsub_Fin.
    unfold ndiv.
    rewrite (Qeq_eq_bool (to_Q (row_max M i) - to_Q (row_min M i)) 0)
      by (rewrite Hmn, Hmx; ring).
    destruct (hi - lo ?= 0); reflexivity. }
  rewrite Hsc in *.
  split.
  - eexists. split; [exact Hlook |]. destruct (hi - lo ?= 0); reflexivity.
  - rewrite (is_fin_to_Q _ Hfin1).
    rewrite (is_fin_to_Q _ (finite_row_elem M i j Hrow Hj)).
    assert (Hcmp : (to_Q (elem M i j) ?= 0) = (to_Q (row_min M i) ?= 0))
      by (rewrite Hmn, (Hx j Hj); reflexivity).
    assert (Hcmp' : (0 ?= to_Q (elem M i j)) = (0 ?= to_Q (row_min M i)))
      by (rewrite Hmn, (Hx j Hj); reflexivity).
    revert Hcmp Hcmp'.
    generalize (to_Q (elem M i j)) (to_Q (row_min M i)). intros x mn Hcmp Hcmp'.
    destruct (hi - lo ?= 0); cbn [inf_of_sign].
    + reflexivity.
    + change (nmul NInf (Fin x)) with (inf_of_sign (0 ?= x)).
      change (nmul (Fin mn) NInf) with (inf_of_sign (0 ?= mn)).
      rewrite Hcmp'. destruct (0 ?= mn); reflexivity.
    + change (nmul PInf (Fin x)) with (inf_of_sign (x ?= 0)).
      change (nmul (Fin mn) PInf) with (inf_of_sign (mn ?= 0)).
      rewrite Hcmp. destruct (mn ?= 0); reflexivity.
Qed.

Lemma minmax_constant_row_nan_witness :
  elem (output_after (MinMaxScaler.Transform
                        row_5_5_5 (MinMaxScaler.new (Fin 1) (Fin 0), no_output)))
       0 1 = NaN.
Proof.
  apply (minmax_constant_row_nan (MinMaxScaler.new (Fin 1) (Fin 0)) row_5_5_5
                                 no_output 0%nat 1%nat);
    try reflexivity; simpl; lia.
Defined.


(** * The classes on binary64 doubles *)

Module B64Facts.
Import PrimFloat.
Import B64.
Local Open Scope float_scope.
Local Open Scope b64_monad_scope.

(** ** Reasoning about runs on doubles *)

Section B64Wp.
Context {S : Type}.
Implicit Types (w : world S) (st : S) (out : Mat) (P : world S -> Prop).















End B64Wp.

(** The two loops both classes share. *)


Section B64SharedLoops.
Context {S : Type}.

(** A vector field with its setter. *)
Variables (f : S -> colvec) (set : colvec -> S -> S).
Hypothesis f_set : forall v s, f (set v s) = v.
Hypothesis set_set : forall v v' s, set v (set v' s) = set v s.
Hypothesis set_f : forall s, set (f s) s = s.



End B64SharedLoops.

(** Facts about the containers. *)









Module MN.
Import B64.MeanNormalization.







End MN.

Module MM.
Import B64.MinMaxScaler.







End MM.

End B64Facts.

(** * Exact runs on doubles denote runs on the numbers

    When no operation of a run on doubles rounds, overflows or underflows,
    and the comparisons are those of the numbers, the doubles the run
    leaves denote what the same statements compute on the denoted
    numbers. *)

(** ** The same number *)

Lemma nsame_refl a : nsame a a.
Proof. destruct a; simpl; auto. reflexivity. Qed.

Lemma nsame_sym a b : nsame a b -> nsame b a.
Proof. destruct a, b; simpl; auto. intros H. symmetry. exact H. Qed.

Lemma nsame_trans a b c : nsame a b -> nsame b c -> nsame a c.
Proof.
  destruct a, b, c; simpl; auto; try contradiction.
  intros H1 H2. rewrite H1. exact H2.
Qed.

#[export] Instance nsame_equivalence : Equivalence nsame.
Proof.
  split.
  - intros a. apply nsame_refl.
  - intros a b. apply nsame_sym.
  - intros a b c. apply nsame_trans.
Qed.


Lemma inf_of_sign_cases c : inf_of_sign c = PInf \/ inf_of_sign c = NInf \/ inf_of_sign c = NaN.
Proof. destruct c; simpl; auto. Qed.

#[export] Instance nopp_nsame : Proper (nsame ==> nsame) nopp.
Proof.
  intros a a' H. destruct a, a'; simpl in *; auto. rewrite H. reflexivity.
Qed.

#[export] Instance nadd_nsame : Proper (nsame ==> nsame ==> nsame) nadd.
Proof.
  intros a a' Ha b b' Hb.
  destruct a, a'; simpl in Ha; try contradiction;
    destruct b, b'; simpl in Hb; try contradiction; simpl; auto.
  rewrite Ha, Hb. reflexivity.
Qed.


#[export] Instance nmul_nsame : Proper (nsame ==> nsame ==> nsame) nmul.
Proof.
  intros a a' Ha b b' Hb.
  destruct a, a'; simpl in Ha; try contradiction;
    destruct b, b'; simpl in Hb; try contradiction; simpl; auto;
    try (rewrite Ha; apply nsame_refl); try (rewrite Hb; apply nsame_refl).
  rewrite Ha, Hb. reflexivity.
Qed.

Lemma Qeq_bool_comp x y : x == y -> Qeq_bool x 0 = Qeq_bool y 0.
Proof.
  intros H. destruct (Qeq_bool y 0) eqn:E.
  - apply Qeq_bool_iff. apply Qeq_bool_iff in E. rewrite H. exact E.
  - destruct (Qeq_bool x 0) eqn:E'; [| reflexivity].
    apply Qeq_bool_iff in E'. rewrite H in E'. apply Qeq_bool_iff in E'. congruence.
Qed.

#[export] Instance ndiv_nsame : Proper (nsame ==> nsame ==> nsame) ndiv.
Proof.
  intros a a' Ha b b' Hb.
  destruct a, a'; simpl in Ha; try contradiction;
    destruct b, b'; simpl in Hb; try contradiction; simpl; auto;
    try reflexivity;
    try (rewrite Hb; apply nsame_refl).
  rewrite (Qeq_bool_comp _ _ Hb). destruct (Qeq_bool q2 0).
  - rewrite Ha. apply nsame_refl.
  - simpl. rewrite Ha, Hb. reflexivity.
Qed.

Lemma neqb_nsame a a' b b' : nsame a a' -> nsame b b' -> neqb a b = neqb a' b'.
Proof.
  intros Ha Hb.
  destruct a, a'; simpl in Ha; try contradiction;
    destruct b, b'; simpl in Hb; try contradiction; simpl; auto.
  destruct (Qeq_bool q0 q2) eqn:E.
  - apply Qeq_bool_iff. apply Qeq_bool_iff in E. rewrite Ha, Hb. exact E.
  - destruct (Qeq_bool q q1) eqn:E'; [| reflexivity].
    apply Qeq_bool_iff in E'. rewrite Ha, Hb in E'. apply Qeq_bool_iff in E'.
    congruence.
Qed.




#[export] Instance nonzero_or_one_nsame : Proper (nsame ==> nsame) nonzero_or_one.
Proof.
  intros a a' H. unfold nonzero_or_one.
  rewrite (neqb_nsame a a' (Fin 0) (Fin 0) H (nsame_refl _)).
  destruct (neqb a' (Fin 0)); [apply nsame_refl | exact H].
Qed.

(** ** One operation *)

Lemma value_zero : value B64.zero_lit = Fin 0.
Proof. reflexivity. Qed.









(** ** The reductions of a row *)







(** ** MeanNormalization, feature by feature *)








(** ** MinMaxScaler, feature by feature *)







(** ** Matrices holding the same numbers *)











(** ** Whole runs *)








(** * The three properties on doubles *)

(** ** Centering *)




(** ** Round trip *)




(** ** The range of MinMaxScaler *)




(** * Further properties on doubles *)



(** ** MeanNormalization *)









(** ** MinMaxScaler *)







(** ** The stored statistics *)







